(** * mini_file_system: the directory scanner and its report

    A shallow embedding of [src/utils/file_scanner.py] (class
    [FileScanner]) and [src/utils/report_writer.py] (class
    [ReportWriter]), together with the parts of the Python standard
    library they call: [str.lower], the [in] operator on strings,
    [posixpath.basename], [posixpath.join], [posixpath.splitext] and
    [datetime.strftime].

    Modelling choices.
    - A Python [str] is a [string]: a sequence of bytes.  [str.lower]
      is modelled on the ASCII letters; other bytes are left alone.
    - A Python [int] is a [Z].
    - A Python [dict] is an insertion-ordered association list with
      unique keys ([Dict.t]): the reports iterate over [.items()], and
      a Python dict iterates in insertion order.
    - The file system and the clock conversions are an oracle ([OS]):
      what [os.walk] lists, what [os.path.getsize] and
      [os.path.getmtime] return or raise for a path, and the local
      broken-down time [datetime.fromtimestamp] gives for a timestamp.
    - Methods that read or write [self] or call [logging] run in a state
      and exception monad [M] over the scanner object and the list of
      log records emitted so far.
    - The generator [FileScanner.scan] is modelled run to exhaustion: its
      result is the list of the values it yields, in order.

    [src/utils/config_loader.py] ([load_config]) and
    [src/utils/path_manager.py] ([PathManager.ensure_exists]) are
    embedded in the modules [config_loader] and [path_manager], each
    over an oracle of its own for the file system. *)

From Stdlib Require Import ZArith List Bool Ascii String Lia.
From Stdlib Require Import DecimalString.
From Stdlib Require Import Permutation Sorted.
Import ListNotations.

Open Scope string_scope.
Open Scope list_scope.
Open Scope Z_scope.

(** ** Python [str] operations *)

Module Str.

Notation "s +++ t" := (String.append s t) (at level 60, right associativity).

(** [len(s)] *)
Definition len (s : string) : Z := Z.of_nat (String.length s).

(** ASCII part of [str.lower] on one character *)
Definition lower_char (c : ascii) : ascii :=
  let n := nat_of_ascii c in
  if andb (Nat.leb 65 n) (Nat.leb n 90) then ascii_of_nat (n + 32) else c.

(** [s.lower()] *)
Fixpoint lower (s : string) : string :=
  match s with
  | EmptyString => EmptyString
  | String c s' => String (lower_char c) (lower s')
  end.

(** [s.startswith(p)] *)
Definition startswith (s p : string) : bool := String.prefix p s.

(** [sub in s] *)
Fixpoint contains (sub s : string) : bool :=
  orb (String.prefix sub s)
      (match s with
       | EmptyString => false
       | String _ s' => contains sub s'
       end).

(** [s.rfind(c)] for a one-character needle [c]: the highest index at
    which [c] occurs, [-1] when it does not.  [rfind_from] scans [s]
    from index [i], [last] being the best index seen so far. *)
Fixpoint rfind_from (c : ascii) (s : string) (i last : Z) : Z :=
  match s with
  | EmptyString => last
  | String a s' => rfind_from c s' (i + 1) (if Ascii.eqb a c then i else last)
  end.

Definition rfind (s : string) (c : ascii) : Z := rfind_from c s 0 (-1).

(** [s[:n]] and [s[n:]] for an index [n >= 0] *)
Fixpoint take (n : nat) (s : string) : string :=
  match n, s with
  | O, _ => EmptyString
  | S _, EmptyString => EmptyString
  | S n', String c s' => String c (take n' s')
  end.

Fixpoint drop (n : nat) (s : string) : string :=
  match n, s with
  | O, _ => s
  | S _, EmptyString => EmptyString
  | S n', String _ s' => drop n' s'
  end.

(** [s[lo:hi]] for indices [0 <= lo] and [0 <= hi]; the code below never
    slices with a negative index. *)
Definition slice (s : string) (lo hi : Z) : string :=
  take (Z.to_nat (hi - lo)) (drop (Z.to_nat lo) s).

Definition slice_to (s : string) (hi : Z) : string := take (Z.to_nat hi) s.
Definition slice_from (s : string) (lo : Z) : string := drop (Z.to_nat lo) s.

(** [s.endswith(c)] for a one-character suffix *)
Fixpoint endswith (s : string) (c : ascii) : bool :=
  match s with
  | EmptyString => false
  | String a EmptyString => Ascii.eqb a c
  | String _ s' => endswith s' c
  end.

(** truthiness of a string: [bool(s)] *)
Definition truthy (s : string) : bool :=
  match s with EmptyString => false | _ => true end.

(** [a or b] on strings *)
Definition or_else (a b : string) : string := if truthy a then a else b.

(** [str(n)] for an [int] *)
Definition of_int (n : Z) : string := NilZero.string_of_int (Z.to_int n).

End Str.
Import Str.

(** ** [posixpath] *)

Module posixpath.

Definition sep : ascii := "/"%char.
Definition extsep : ascii := "."%char.

(** [posixpath.basename]:
    [i = p.rfind(sep) + 1; return p[i:]] *)
Definition basename (p : string) : string :=
  let i := rfind p sep + 1 in
  slice_from p i.

(** [posixpath.join(a, b)] with a single component [b]:
    [if b.startswith(sep): path = b
     elif not path or path.endswith(sep): path += b
     else: path += sep + b] *)
Definition join (a b : string) : string :=
  if startswith b (String sep EmptyString) then b
  else if orb (negb (truthy a)) (endswith a sep) then a +++ b
  else a +++ String sep b.

(** The loop of [genericpath._splitext] that skips leading dots:
    [while filenameIndex < dotIndex:
         if p[filenameIndex:filenameIndex+1] != extsep:
             return p[:dotIndex], p[dotIndex:]
         filenameIndex += 1]
    run for the [n = dotIndex - filenameIndex] iterations that remain;
    [None] when the loop ends without returning. *)
Fixpoint skip_leading_dots (p : string) (dotIndex filenameIndex : Z) (n : nat)
  : option (string * string) :=
  match n with
  | O => None
  | S n' =>
      if negb (String.eqb (slice p filenameIndex (filenameIndex + 1))
                          (String extsep EmptyString))
      then Some (slice_to p dotIndex, slice_from p dotIndex)
      else skip_leading_dots p dotIndex (filenameIndex + 1) n'
  end.

(** [posixpath.splitext(p)], which is
    [genericpath._splitext(p, sep, None, extsep)] *)
Definition splitext (p : string) : string * string :=
  let sepIndex := rfind p sep in
  let dotIndex := rfind p extsep in
  let fallthrough := (p, slice_to p 0) in
  if dotIndex >? sepIndex then
    let filenameIndex := sepIndex + 1 in
    match skip_leading_dots p dotIndex filenameIndex
                            (Z.to_nat (dotIndex - filenameIndex)) with
    | Some r => r
    | None => fallthrough
    end
  else fallthrough.

End posixpath.

(** ** [datetime] *)

(** A [datetime.datetime] value, as broken-down local time. *)
Record datetime : Type := mkDatetime {
  year : Z;
  month : Z;
  day : Z;
  hour : Z;
  minute : Z;
  second : Z;
  microsecond : Z
}.

Module strftime_impl.

(** the decimal digit [d], for [0 <= d <= 9] *)
Definition digit (d : Z) : ascii := ascii_of_nat (48 + Z.to_nat d).

(** the value of a decimal digit character *)
Definition digit_value (c : ascii) : Z := Z.of_nat (nat_of_ascii c) - 48.

(** [%m], [%d], [%H], [%M], [%S]: two decimal digits, zero padded; the
    field is between 0 and 99 *)
Definition two_digits (n : Z) : string :=
  String (digit (n / 10 mod 10)) (String (digit (n mod 10)) EmptyString).

(** [%Y]: the year in decimal, as the C library prints it: without
    padding, so with fewer than four digits for the years before 1000 *)
Definition year_digits (n : Z) : string := Str.of_int n.

End strftime_impl.

(** [dt.strftime("%Y-%m-%d %H:%M:%S")] *)
Definition strftime_Ymd_HMS (dt : datetime) : string :=
  strftime_impl.year_digits (year dt) +++ "-" +++
  strftime_impl.two_digits (month dt) +++ "-" +++
  strftime_impl.two_digits (day dt) +++ " " +++
  strftime_impl.two_digits (hour dt) +++ ":" +++
  strftime_impl.two_digits (minute dt) +++ ":" +++
  strftime_impl.two_digits (second dt).

(** the ranges the class [datetime] keeps its fields in *)
Definition datetime_in_range (dt : datetime) : Prop :=
  1 <= year dt <= 9999 /\ 1 <= month dt <= 12 /\ 1 <= day dt <= 31 /\
  0 <= hour dt <= 23 /\ 0 <= minute dt <= 59 /\ 0 <= second dt <= 59.

(** ** Python [dict], keyed by [str] *)

Module Dict.

Section Defs.
Context {V : Type}.

(** the items, in insertion order; keys are unique *)
Definition t : Type := list (string * V).

Definition empty : t := [].

(** [d.get(k)] *)
Fixpoint get (d : t) (k : string) : option V :=
  match d with
  | [] => None
  | (k', v) :: d' => if String.eqb k' k then Some v else get d' k
  end.

(** [d[k] = v]: an existing key keeps its place, a new key goes
    last *)
Fixpoint set (d : t) (k : string) (v : V) : t :=
  match d with
  | [] => [(k, v)]
  | (k', v') :: d' =>
      if String.eqb k' k then (k', v) :: d' else (k', v') :: set d' k v
  end.

(** [d[k]] on a [defaultdict] whose factory returns [default]: a
    missing key is inserted with the default value first *)
Definition getitem_default (default : V) (d : t) (k : string) : V * t :=
  match get d k with
  | Some v => (v, d)
  | None => (default, set d k default)
  end.

Definition items (d : t) : list (string * V) := d.
Definition keys (d : t) : list string := map fst d.
Definition values (d : t) : list V := map snd d.

(** [bool(d)] *)
Definition truthy (d : t) : bool :=
  match d with [] => false | _ => true end.

(** [dict(d)]: a shallow copy *)
Definition copy (d : t) : t := d.

(** [{k: v for k, v in d.items() if p(k, v)}] *)
Definition comprehension_if (p : string -> V -> bool) (d : t) : t :=
  filter (fun kv => p (fst kv) (snd kv)) d.

End Defs.
Arguments t V : clear implicits.

End Dict.

(** ** Exceptions and logging *)

(** The exceptions of class [Exception] that the scanner raises or
    receives from the library, with the message [str(e)] gives. *)
Inductive Exception : Type :=
| RuntimeError (msg : string)
| OSError (msg : string)
| OverflowError (msg : string)
| ValueError (msg : string).

Inductive result (A : Type) : Type :=
| Ok (a : A)
| Raise (e : Exception).
Arguments Ok {A} a.
Arguments Raise {A} e.

Inductive Level : Type := ERROR | WARNING | INFO.

(** The message of a [logging] call: the f-string of the call site with
    the values it interpolates. *)
Inductive LogMessage : Type :=
| MsgFailed (full_path : string) (e : Exception)
    (* f"[FAILED] {full_path} -> {e}" *)
| MsgZeroByte (path : string)
    (* f"Zero-byte file detected: {path}" *)
| MsgLargeFile (threshold_mb : Z) (path : string) (size : Z)
    (* f"Large file (>{threshold_mb} MB): {path} ({size} bytes)" *)
| MsgDiscovered (n : Z)
    (* f"Discovered : {self.total_discovered}" *)
| MsgProcessed (n : Z)
    (* f"Processed  : {self.total_processed}" *)
| MsgFailedCount (n : Z)
    (* f"Failed     : {self.total_failed}" *)
| MsgExtension (ext : string) (count : Z)
    (* f"  {ext} -> {count} file(s)" *)
| MsgLargeCount (n : Z)
    (* f"Large files: {len(self.large_files)}" *)
| MsgDuplicate (name : string) (paths : list string).
    (* f"Duplicate -> {name}: {paths}" *)

Record LogRecord : Type := mkLogRecord {
  levelname : Level;
  message : LogMessage
}.

(** ** The operating system *)

Record OS : Type := mkOS {
  (** the float [os.path.getmtime] returns *)
  timestamp : Type;
  (** [os.walk(top)], run to the end: the [(root, dirs, files)] triples *)
  os_walk : string -> list (string * list string * list string);
  (** [os.path.getsize(path)] *)
  getsize : string -> result Z;
  (** [os.path.getmtime(path)] *)
  getmtime : string -> result timestamp;
  (** [datetime.fromtimestamp(t)] *)
  fromtimestamp : timestamp -> result datetime
}.

(** ** The scanner object *)

(** The dict [_extract_metadata] returns, with keys ["path"], ["size"],
    ["extension"] and ["modified"]. *)
Record FileRecord : Type := mkFileRecord {
  path : string;
  size : Z;
  extension : string;
  modified : string
}.

(** The attributes of a [FileScanner] instance. *)
Record FileScanner : Type := mkFileScanner {
  root_path : string;
  large_file_threshold_bytes : Z;
  total_discovered : Z;
  total_processed : Z;
  total_failed : Z;
  extension_count : Dict.t Z;
  large_files : list string;
  duplicates : Dict.t (list string)
}.

(** The dict [get_summary] returns. *)
Record Summary : Type := mkSummary {
  summary_total_discovered : Z;
  summary_total_processed : Z;
  summary_total_failed : Z;
  summary_extension_count : Dict.t Z;
  summary_large_files : list string;
  summary_duplicates : Dict.t (list string)
}.

(** What a method runs in: the scanner it is called on and the log
    records emitted so far. *)
Record World : Type := mkWorld {
  self : FileScanner;
  log : list LogRecord
}.

Definition set_total_discovered (n : Z) (s : FileScanner) : FileScanner :=
  mkFileScanner (root_path s) (large_file_threshold_bytes s) n
    (total_processed s) (total_failed s) (extension_count s) (large_files s)
    (duplicates s).

Definition set_total_processed (n : Z) (s : FileScanner) : FileScanner :=
  mkFileScanner (root_path s) (large_file_threshold_bytes s)
    (total_discovered s) n (total_failed s) (extension_count s)
    (large_files s) (duplicates s).

Definition set_total_failed (n : Z) (s : FileScanner) : FileScanner :=
  mkFileScanner (root_path s) (large_file_threshold_bytes s)
    (total_discovered s) (total_processed s) n (extension_count s)
    (large_files s) (duplicates s).

Definition set_extension_count (d : Dict.t Z) (s : FileScanner) : FileScanner :=
  mkFileScanner (root_path s) (large_file_threshold_bytes s)
    (total_discovered s) (total_processed s) (total_failed s) d
    (large_files s) (duplicates s).

Definition set_large_files (l : list string) (s : FileScanner) : FileScanner :=
  mkFileScanner (root_path s) (large_file_threshold_bytes s)
    (total_discovered s) (total_processed s) (total_failed s)
    (extension_count s) l (duplicates s).

Definition set_duplicates (d : Dict.t (list string)) (s : FileScanner)
  : FileScanner :=
  mkFileScanner (root_path s) (large_file_threshold_bytes s)
    (total_discovered s) (total_processed s) (total_failed s)
    (extension_count s) (large_files s) d.

(** ** The monad of methods *)

Definition M (A : Type) : Type := World -> result A * World.

Definition ret {A : Type} (a : A) : M A := fun w => (Ok a, w).

Definition bind {A B : Type} (m : M A) (k : A -> M B) : M B :=
  fun w =>
    match m w with
    | (Ok a, w') => k a w'
    | (Raise e, w') => (Raise e, w')
    end.

Notation "x <- m ;; k" := (bind m (fun x => k))
  (at level 61, m at next level, right associativity).
Notation "m ;;; k" := (bind m (fun _ => k))
  (at level 61, right associativity).

(** [raise e] *)
Definition raise {A : Type} (e : Exception) : M A := fun w => (Raise e, w).

(** a library call that returns or raises *)
Definition call {A : Type} (r : result A) : M A := fun w => (r, w).

(** [try: body except Exception as e: handler(e)]; what the body did
    before it raised stays done *)
Definition try_except {A : Type} (body : M A) (handler : Exception -> M A)
  : M A :=
  fun w =>
    match body w with
    | (Ok a, w') => (Ok a, w')
    | (Raise e, w') => handler e w'
    end.

Definition read_self : M FileScanner := fun w => (Ok (self w), w).

Definition update_self (f : FileScanner -> FileScanner) : M unit :=
  fun w => (Ok tt, mkWorld (f (self w)) (log w)).

Definition logging (lvl : Level) (msg : LogMessage) : M unit :=
  fun w => (Ok tt, mkWorld (self w) (log w ++ [mkLogRecord lvl msg])).

(** a [for] loop whose body yields one value per element *)
Fixpoint for_yield {A B : Type} (body : A -> M B) (l : list A) : M (list B) :=
  match l with
  | [] => ret []
  | a :: l' => y <- body a ;; ys <- for_yield body l' ;; ret (y :: ys)
  end.

(** a [for] loop whose body yields nothing *)
Fixpoint for_each {A : Type} (body : A -> M unit) (l : list A) : M unit :=
  match l with
  | [] => ret tt
  | a :: l' => body a ;;; for_each body l'
  end.

(** ** [class FileScanner] *)

Definition no_ext : string := "<no-ext>".

Definition simulated_failure_msg : string :=
  "Simulated failure — filename contains 'fail'".

(** [FileScanner.__init__] *)
Definition init (root_path : string) (large_file_threshold_mb : Z)
  : FileScanner :=
  {| root_path := root_path;
     large_file_threshold_bytes := large_file_threshold_mb * 1024 * 1024;
     total_discovered := 0;
     total_processed := 0;
     total_failed := 0;
     extension_count := Dict.empty;
     large_files := [];
     duplicates := Dict.empty |}.

(** [self.extension_count[ext] += 1] *)
Definition extension_count_incr (ext : string) (s : FileScanner) : FileScanner :=
  let '(n, d) := Dict.getitem_default 0 (extension_count s) ext in
  set_extension_count (Dict.set d ext (n + 1)) s.

(** [self.large_files.append(path)] *)
Definition large_files_append (p : string) (s : FileScanner) : FileScanner :=
  set_large_files (large_files s ++ [p]) s.

(** [self.duplicates[name].append(path)] *)
Definition duplicates_append (name p : string) (s : FileScanner) : FileScanner :=
  let '(paths, d) := Dict.getitem_default [] (duplicates s) name in
  set_duplicates (Dict.set d name (paths ++ [p])) s.

(** the test ["fail" in os.path.basename(path).lower()] *)
Definition name_has_fail (p : string) : bool :=
  Str.contains "fail" (Str.lower (posixpath.basename p)).

(** the message of the exception [_verify_counters] raises *)
Definition counter_mismatch_msg (s : FileScanner) : string :=
  "Counter mismatch: discovered=" +++ Str.of_int (total_discovered s)
  +++ ", processed=" +++ Str.of_int (total_processed s)
  +++ ", failed=" +++ Str.of_int (total_failed s).

(** [FileScanner._verify_counters] *)
Definition _verify_counters : M unit :=
  s <- read_self ;;
  if negb (total_discovered s =? total_processed s + total_failed s)
  then raise (RuntimeError (counter_mismatch_msg s))
  else ret tt.

(** [FileScanner.get_summary] *)
Definition get_summary : M Summary :=
  _verify_counters ;;;
  s <- read_self ;;
  ret {| summary_total_discovered := total_discovered s;
         summary_total_processed := total_processed s;
         summary_total_failed := total_failed s;
         summary_extension_count := Dict.copy (extension_count s);
         summary_large_files := large_files s;
         summary_duplicates := Dict.copy (duplicates s) |}.

(** [FileScanner.report_summary] *)
Definition report_summary : M unit :=
  s <- read_self ;;
  logging INFO (MsgDiscovered (total_discovered s)) ;;;
  s <- read_self ;;
  logging INFO (MsgProcessed (total_processed s)) ;;;
  s <- read_self ;;
  logging INFO (MsgFailedCount (total_failed s)) ;;;
  s <- read_self ;;
  for_each (fun '(ext, count) => logging INFO (MsgExtension ext count))
           (Dict.items (extension_count s)) ;;;
  s <- read_self ;;
  logging INFO (MsgLargeCount (Z.of_nat (List.length (large_files s)))).

(** [FileScanner.report_duplicates] *)
Definition report_duplicates : M unit :=
  s <- read_self ;;
  for_each (fun '(name, paths) =>
              if Z.of_nat (List.length paths) >? 1
              then logging INFO (MsgDuplicate name paths)
              else ret tt)
           (Dict.items (duplicates s)).

Section Scanning.

Variable os : OS.

(** [FileScanner._extract_metadata] *)
Definition _extract_metadata (path : string) : M FileRecord :=
  if name_has_fail path
  then raise (RuntimeError simulated_failure_msg)
  else
    size <- call (getsize os path) ;;
    let ext := Str.or_else (snd (posixpath.splitext path)) no_ext in
    mtime <- call (getmtime os path) ;;
    dt <- call (fromtimestamp os mtime) ;;
    let modified := strftime_Ymd_HMS dt in
    (* Extension tracking *)
    update_self (extension_count_incr ext) ;;;
    (* Size warnings *)
    (if size =? 0
     then logging WARNING (MsgZeroByte path)
     else
       s <- read_self ;;
       if size >? large_file_threshold_bytes s
       then
         let threshold_mb := large_file_threshold_bytes s / (1024 * 1024) in
         logging WARNING (MsgLargeFile threshold_mb path size) ;;;
         update_self (large_files_append path)
       else ret tt) ;;;
    (* Duplicate name tracking *)
    update_self (duplicates_append (posixpath.basename path) path) ;;;
    ret {| path := path; size := size; extension := ext; modified := modified |}.

(** The body of the inner loop of [FileScanner.scan], for one
    [filename] of the directory [root]; its value is what is
    yielded. *)
Definition scan_file (root filename : string) : M (option FileRecord) :=
  let full_path := posixpath.join root filename in
  update_self (fun s => set_total_discovered (total_discovered s + 1) s) ;;;
  try_except
    (meta <- _extract_metadata full_path ;;
     update_self (fun s => set_total_processed (total_processed s + 1) s) ;;;
     ret (Some meta))
    (fun e =>
       update_self (fun s => set_total_failed (total_failed s + 1) s) ;;;
       logging ERROR (MsgFailed full_path e) ;;;
       ret None).

(** The two nested loops of [FileScanner.scan], over what [os.walk]
    lists. *)
Definition scan_walk (tree : list (string * list string * list string))
  : M (list (option FileRecord)) :=
  yss <- for_yield (fun '(root, _, files) => for_yield (scan_file root) files)
                   tree ;;
  ret (List.concat yss).

(** [FileScanner.scan], consumed to the end: the values yielded, or the
    exception of the final [_verify_counters]. *)
Definition scan : M (list (option FileRecord)) :=
  s <- read_self ;;
  ys <- scan_walk (os_walk os (root_path s)) ;;
  _verify_counters ;;;
  ret ys.

End Scanning.

(** ** [class ReportWriter] *)

Module ReportWriter.

Definition nl : string := String (ascii_of_nat 10) EmptyString.

(** [sorted(items, key=lambda x: x[1], reverse=True)]: by descending
    count; the sort is stable, so items of equal count keep their
    order. *)
Fixpoint insert_desc (x : string * Z) (l : list (string * Z))
  : list (string * Z) :=
  match l with
  | [] => [x]
  | y :: l' => if snd y >? snd x then y :: insert_desc x l' else x :: y :: l'
  end.

Definition sorted_by_count_desc (l : list (string * Z)) : list (string * Z) :=
  fold_right insert_desc [] l.

(** the section "Scan Counters" *)
Definition write_counters (summary : Summary) : list string :=
  [ "## Scan Counters" +++ nl +++ nl;
    "- **Total Discovered**: " +++ Str.of_int (summary_total_discovered summary) +++ nl;
    "- **Total Processed**:  " +++ Str.of_int (summary_total_processed summary) +++ nl;
    "- **Total Failed**:     " +++ Str.of_int (summary_total_failed summary) +++ nl +++ nl ].

(** the section "File Extensions Count" *)
Definition write_extensions (summary : Summary) : list string :=
  [ "## File Extensions Count" +++ nl +++ nl ] ++
  (if Dict.truthy (summary_extension_count summary)
   then map (fun '(ext, count) => "- **" +++ ext +++ "**: " +++ Str.of_int count +++ nl)
            (sorted_by_count_desc (Dict.items (summary_extension_count summary)))
   else [ "_None found._" +++ nl ]) ++
  [ nl ].

(** the section "Large Files" *)
Definition write_large_files (summary : Summary) : list string :=
  [ "## Large Files" +++ nl +++ nl ] ++
  (match summary_large_files summary with
   | [] => [ "_None detected._" +++ nl ]
   | paths => map (fun p => "- `" +++ p +++ "`" +++ nl) paths
   end) ++
  [ nl ].

(** one group of the section "Duplicate File Names" *)
Definition write_group (group : string * list string) : list string :=
  let '(name, paths) := group in
  [ "### `" +++ name +++ "`" +++ nl ] ++
  map (fun p => "- `" +++ p +++ "`" +++ nl) paths ++
  [ nl ].

(** the section "Duplicate File Names" *)
Definition write_duplicates (summary : Summary) : list string :=
  [ "## Duplicate File Names" +++ nl +++ nl ] ++
  let duplicates :=
    Dict.comprehension_if (fun _ paths => Z.of_nat (List.length paths) >? 1)
                          (summary_duplicates summary) in
  if Dict.truthy duplicates
  then flat_map write_group (Dict.items duplicates)
  else [ "_No duplicates found._" +++ nl ].

(** [ReportWriter.write_report]: the path of the report and the
    strings written to it, one per [f.write] *)
Definition write_report (output_dir : string) (summary : Summary)
                        (filename : string) : string * list string :=
  let report_path := posixpath.join output_dir filename in
  (report_path,
   [ "# File System Scan Report" +++ nl +++ nl ] ++
   write_counters summary ++
   write_extensions summary ++
   write_large_files summary ++
   write_duplicates summary).

End ReportWriter.

(** ** Derived descriptions of a scan

    What one discovered file does to the scanner depends on the file
    system alone: [outcome] performs the reads of [_extract_metadata],
    and [apply_outcome] the writes of one round of the loop of [scan].
    The lemmas below show that the code does exactly this. *)

Inductive Outcome : Type :=
| Processed (r : FileRecord)
| Failed (full_path : string) (e : Exception).

Definition outcome (os : OS) (p : string) : Outcome :=
  if name_has_fail p then Failed p (RuntimeError simulated_failure_msg)
  else
    match getsize os p with
    | Raise e => Failed p e
    | Ok sz =>
        match getmtime os p with
        | Raise e => Failed p e
        | Ok t =>
            match fromtimestamp os t with
            | Raise e => Failed p e
            | Ok dt =>
                Processed
                  {| path := p;
                     size := sz;
                     extension := Str.or_else (snd (posixpath.splitext p)) no_ext;
                     modified := strftime_Ymd_HMS dt |}
            end
        end
    end.

(** the value yielded for an outcome *)
Definition yield_of (o : Outcome) : option FileRecord :=
  match o with
  | Processed r => Some r
  | Failed _ _ => None
  end.

(** the writes of a successful [_extract_metadata] *)
Definition record_file (r : FileRecord) (w : World) : World :=
  let s1 := extension_count_incr (extension r) (self w) in
  let w2 :=
    if size r =? 0
    then mkWorld s1 (log w ++ [mkLogRecord WARNING (MsgZeroByte (path r))])
    else if size r >? large_file_threshold_bytes s1
    then mkWorld (large_files_append (path r) s1)
                 (log w ++ [mkLogRecord WARNING
                              (MsgLargeFile (large_file_threshold_bytes s1 / (1024 * 1024))
                                            (path r) (size r))])
    else mkWorld s1 (log w) in
  mkWorld (duplicates_append (posixpath.basename (path r)) (path r) (self w2))
          (log w2).

Definition discover (w : World) : World :=
  mkWorld (set_total_discovered (total_discovered (self w) + 1) (self w)) (log w).

Definition count_processed (w : World) : World :=
  mkWorld (set_total_processed (total_processed (self w) + 1) (self w)) (log w).

Definition count_failed (full_path : string) (e : Exception) (w : World) : World :=
  mkWorld (set_total_failed (total_failed (self w) + 1) (self w))
          (log w ++ [mkLogRecord ERROR (MsgFailed full_path e)]).

(** the writes of one round of the loop of [scan] *)
Definition apply_outcome (w : World) (o : Outcome) : World :=
  match o with
  | Processed r => count_processed (record_file r (discover w))
  | Failed p e => count_failed p e (discover w)
  end.

(** the full paths [scan] visits, in order *)
Definition walk_paths (tree : list (string * list string * list string))
  : list string :=
  flat_map (fun '(root, _, files) => map (posixpath.join root) files) tree.

(** the records among the values yielded *)
Fixpoint processed_records (ys : list (option FileRecord)) : list FileRecord :=
  match ys with
  | [] => []
  | Some r :: ys' => r :: processed_records ys'
  | None :: ys' => processed_records ys'
  end.

(** the number of [None] among the values yielded *)
Fixpoint count_none (ys : list (option FileRecord)) : Z :=
  match ys with
  | [] => 0
  | Some _ :: ys' => count_none ys'
  | None :: ys' => 1 + count_none ys'
  end.

(** the counter invariant [_verify_counters] tests *)
Definition counters_ok (s : FileScanner) : Prop :=
  total_discovered s = total_processed s + total_failed s.

(** the paths listed for a name in a duplicate index, none when the name
    is not a key *)
Definition paths_of (d : Dict.t (list string)) (name : string) : list string :=
  match Dict.get d name with
  | Some l => l
  | None => []
  end.

(** the count of an extension in an extension index, 0 when the extension
    is not a key *)
Definition count_of (d : Dict.t Z) (ext : string) : Z :=
  match Dict.get d ext with
  | Some n => n
  | None => 0
  end.

(** the sum of [f] over the values of a dict *)
Definition dict_total {V : Type} (f : V -> Z) (d : Dict.t V) : Z :=
  fold_right (fun kv acc => f (snd kv) + acc) 0 d.

(** the sum of all counts of an extension index *)
Definition sum_counts (d : Dict.t Z) : Z := dict_total (fun n => n) d.

(** the number of paths in all the sequences of a duplicate index *)
Definition count_paths (d : Dict.t (list string)) : Z :=
  dict_total (fun l => Z.of_nat (List.length l)) d.

(** The extension as the specification words it: the text after the last
    ['.'] of the base name, and the sentinel when the base name has no
    ['.']. *)
Definition spec_extension (p : string) : string :=
  let b := posixpath.basename p in
  let i := Str.rfind b posixpath.extsep in
  if i <? 0 then no_ext else Str.slice_from b (i + 1).

(** the read-only operations of the scanner *)
Inductive ReadOnlyOp : Type :=
| GetSummary
| ReportSummary
| ReportDuplicates.

Definition run_op (op : ReadOnlyOp) (w : World) : World :=
  match op with
  | GetSummary => snd (get_summary w)
  | ReportSummary => snd (report_summary w)
  | ReportDuplicates => snd (report_duplicates w)
  end.

Definition run_ops (ops : list ReadOnlyOp) (w : World) : World :=
  fold_left (fun w op => run_op op w) ops w.

(** the paths of the records [rs] whose base name is [name] *)
Definition paths_named (name : string) (rs : list FileRecord) : list string :=
  filter (fun p => String.eqb (posixpath.basename p) name) (map path rs).

(** the number of the records [rs] whose extension is [ext] *)
Definition count_ext (ext : string) (rs : list FileRecord) : Z :=
  Z.of_nat (List.length (filter (fun r => String.eqb (extension r) ext) rs)).

(** the test that puts a record on the large-file list *)
Definition is_large (threshold_bytes : Z) (r : FileRecord) : bool :=
  andb (negb (size r =? 0)) (size r >? threshold_bytes).

(** a key is present in a dict *)
Definition has_key {V : Type} (d : Dict.t V) (k : string) : Prop :=
  Dict.get d k <> None.

(** the outcomes of the files a call of [scan] visits *)
Definition scan_outcomes (os : OS) (w : World) : list Outcome :=
  map (outcome os) (walk_paths (os_walk os (root_path (self w)))).

(** the aggregates account for the processed files: one count and one
    listed path each, and at most one entry of the large-file list *)
Definition totals_ok (s : FileScanner) : Prop :=
  sum_counts (extension_count s) = total_processed s /\
  count_paths (duplicates s) = total_processed s /\
  Z.of_nat (List.length (large_files s)) <= total_processed s.

(** the groups the duplicate reports show: more than one path *)
Definition more_than_one (group : string * list string) : bool :=
  Z.of_nat (List.length (snd group)) >? 1.

(** the character [c] occurs in [s] *)
Fixpoint has_char (c : ascii) (s : string) : bool :=
  match s with
  | EmptyString => false
  | String a s' => orb (Ascii.eqb a c) (has_char c s')
  end.

(** [s] consists of ['.'] characters only (none, when [s] is empty) *)
Fixpoint all_dots (s : string) : bool :=
  match s with
  | EmptyString => true
  | String a s' => andb (Ascii.eqb a posixpath.extsep) (all_dots s')
  end.

(** the number a string of decimal digits denotes; [None] when a
    character is not a digit *)
Definition is_digit (c : ascii) : bool :=
  andb (Nat.leb 48 (nat_of_ascii c)) (Nat.leb (nat_of_ascii c) 57).

Fixpoint decimal_value_from (acc : Z) (s : string) : option Z :=
  match s with
  | EmptyString => Some acc
  | String c s' =>
      if is_digit c
      then decimal_value_from (10 * acc + strftime_impl.digit_value c) s'
      else None
  end.

Definition decimal_value (s : string) : option Z := decimal_value_from 0 s.

(** a [datetime] with another [microsecond] *)
Definition with_microsecond (us : Z) (dt : datetime) : datetime :=
  mkDatetime (year dt) (month dt) (day dt) (hour dt) (minute dt) (second dt) us.

(** The format of the timestamp as the specification words it,
    [YYYY-MM-DD HH:MM:SS]: four digits, ['-'], two digits, ['-'], two
    digits, a space, and three pairs of digits with [':'] between. *)
Definition spec_modified_format (s : string) : bool :=
  match s with
  | String y1 (String y2 (String y3 (String y4 (String h1
      (String m1 (String m2 (String h2
        (String d1 (String d2 (String sp
          (String H1 (String H2 (String c1
            (String M1 (String M2 (String c2
              (String S1 (String S2 EmptyString)))))))))))))))))) =>
      forallb is_digit [y1; y2; y3; y4; m1; m2; d1; d2; H1; H2; M1; M2; S1; S2]
      && Ascii.eqb h1 "-" && Ascii.eqb h2 "-" && Ascii.eqb sp " "
      && Ascii.eqb c1 ":" && Ascii.eqb c2 ":"
  | _ => false
  end.

(** the four decimal digits of a number from 1000 to 9999 *)
Definition four_digit_form (n : Z) : string :=
  String (strftime_impl.digit (n / 1000 mod 10))
    (String (strftime_impl.digit (n / 100 mod 10))
       (String (strftime_impl.digit (n / 10 mod 10))
          (String (strftime_impl.digit (n mod 10)) EmptyString))).

(** what [%Y] prints for the year [n] is the decimal numeral of [n], of
    four digits from the year 1000 on and of fewer before *)
Definition year_printed_ok (n : Z) : bool :=
  match decimal_value (strftime_impl.year_digits n) with
  | Some m =>
      (m =? n)
      && (if 1000 <=? n
          then String.eqb (strftime_impl.year_digits n) (four_digit_form n)
          else Nat.ltb (String.length (strftime_impl.year_digits n)) 4)
  | None => false
  end.

(** ** A sample file system *)

Module Sample.

Definition tree : list (string * list string * list string) :=
  [ ("/data", ["sub"],
     ["a.txt"; "big.bin"; "exact.bin"; "fail_me.log"; "empty.dat";
      ".bashrc"; "gone.txt"; "README"]);
    ("/data/sub", [], ["a.txt"; "Not_A_FAILURE.md"; "stale.txt"]) ].

Definition sizes : list (string * Z) :=
  [ ("/data/a.txt", 5);
    ("/data/big.bin", 10 * 1024 * 1024 + 1);
    ("/data/exact.bin", 10 * 1024 * 1024);
    ("/data/fail_me.log", 7);
    ("/data/empty.dat", 0);
    ("/data/.bashrc", 120);
    ("/data/README", 64);
    ("/data/sub/a.txt", 5);
    ("/data/sub/Not_A_FAILURE.md", 9);
    ("/data/sub/stale.txt", 3) ].

Definition os : OS :=
  {| timestamp := Z;
     os_walk := fun top => if String.eqb top "/data" then tree else [];
     getsize := fun p =>
       match Dict.get sizes p with
       | Some n => Ok n
       | None => Raise (OSError "[Errno 2] No such file or directory")
       end;
     getmtime := fun p =>
       if String.eqb p "/data/sub/stale.txt"
       then Raise (OSError "[Errno 2] No such file or directory")
       else Ok 1705309507;
     fromtimestamp := fun _ => Ok (mkDatetime 2024 1 15 9 5 7 250000) |}.

(** a fresh scanner on ["/data"] with the default threshold of 10 MB,
    and nothing logged yet *)
Definition fresh : World := mkWorld (init "/data" 10) [].

(** a scanner whose counters have been tampered with *)
Definition tampered : World :=
  mkWorld (set_total_discovered 3 (init "/data" 10)) [].

End Sample.

(** The scenario of the specification: [a.txt] and [b.txt] of 5 bytes,
    [big.bin] one byte above the threshold, and [fail_me.log]. *)
Module Scenario.

Definition sizes : list (string * Z) :=
  [ ("/root/a.txt", 5); ("/root/b.txt", 5);
    ("/root/big.bin", 10 * 1024 * 1024 + 1); ("/root/fail_me.log", 1) ].

Definition os : OS :=
  {| timestamp := Z;
     os_walk := fun _ => [("/root", [], ["a.txt"; "b.txt"; "big.bin"; "fail_me.log"])];
     getsize := fun p =>
       match Dict.get sizes p with
       | Some n => Ok n
       | None => Raise (OSError "[Errno 2] No such file or directory")
       end;
     getmtime := fun _ => Ok 0;
     fromtimestamp := fun _ => Ok (mkDatetime 1970 1 1 0 0 0 0) |}.

(** the same files, last modified in the year 999 *)
Definition old_os : OS :=
  {| timestamp := Z;
     os_walk := fun _ => [("/root", [], ["a.txt"; "b.txt"; "big.bin"; "fail_me.log"])];
     getsize := fun p =>
       match Dict.get sizes p with
       | Some n => Ok n
       | None => Raise (OSError "[Errno 2] No such file or directory")
       end;
     getmtime := fun _ => Ok (-30641760000);
     fromtimestamp := fun _ => Ok (mkDatetime 999 1 1 0 0 0 0) |}.

Definition empty_os : OS :=
  {| timestamp := Z;
     os_walk := fun _ => [("/root", [], [])];
     getsize := fun _ => Raise (OSError "[Errno 2] No such file or directory");
     getmtime := fun _ => Ok 0;
     fromtimestamp := fun _ => Ok (mkDatetime 1970 1 1 0 0 0 0) |}.

End Scenario.

(** ** Further descriptions of a scan *)

Definition level_eqb (a b : Level) : bool :=
  match a, b with
  | ERROR, ERROR | WARNING, WARNING | INFO, INFO => true
  | _, _ => false
  end.

(** the number of records of a level in a log *)
Definition count_level (lvl : Level) (l : list LogRecord) : Z :=
  Z.of_nat (List.length (filter (fun x => level_eqb (levelname x) lvl) l)).

(** a processed file that gets a warning: empty, or above the threshold *)
Definition warned (threshold_bytes : Z) (r : FileRecord) : bool :=
  orb (size r =? 0) (size r >? threshold_bytes).

(** the log records one round of the loop of [scan] emits *)
Definition diagnostics (threshold_bytes : Z) (o : Outcome) : list LogRecord :=
  match o with
  | Processed r =>
      if size r =? 0 then [mkLogRecord WARNING (MsgZeroByte (path r))]
      else if size r >? threshold_bytes
           then [mkLogRecord WARNING
                   (MsgLargeFile (threshold_bytes / (1024 * 1024)) (path r) (size r))]
           else []
  | Failed p e => [mkLogRecord ERROR (MsgFailed p e)]
  end.

(** a string written to the report that begins with ['_']: one of the
    three lines that stand for an empty section *)
Definition is_placeholder (s : string) : bool :=
  match s with
  | EmptyString => false
  | String c _ => Ascii.eqb c "_"%char
  end.

(** * [config_loader.py]

    The JSON value [json.loads] returns is a [Json]; a finite float is
    kept as the fraction it denotes.  What [load_config] asks of the file
    system, the JSON codec and the parser of [int(str)] is an oracle
    ([Env]).  [str.strip] and [str.upper] are computed for the strings
    of ASCII characters, where the white space is the characters 9 to
    13, 28 to 31 and the space and the letters are [a] to [z]; for any
    other string, held as the bytes of its UTF-8 encoding, what they
    return is part of the oracle. *)

Module config_loader.

Inductive Float : Type :=
| FNan
| FInf (negative : bool)
| FFinite (numerator : Z) (denominator : positive).

Unset Elimination Schemes.
Inductive Json : Type :=
| JNull
| JBool (b : bool)
| JInt (n : Z)
| JFloat (f : Float)
| JStr (s : string)
| JList (items : list Json)
| JObject (members : Dict.t Json).
Set Elimination Schemes.

(** the exceptions [load_config] raises or lets through *)
Inductive Error : Type :=
| TypeError (msg : string)
| ValueError (msg : string)
| AttributeError (msg : string)
| OverflowError (msg : string)
| OSError (msg : string).

Inductive outcome (A : Type) : Type :=
| Returns (a : A)
| Raises (e : Error).
Arguments Returns {A} a.
Arguments Raises {A} e.

(** what a call leaves behind: the text written to the config file and
    the [logging] calls *)
Inductive Event : Type :=
| WriteText (text : string)
    (* cfg_path.write_text(text, encoding="utf-8") *)
| LogInfoCreated (config_path : string)
    (* logging.info(f"Config not found - created default at: {cfg_path}") *)
| LogWarningLevel (log_level : string).
    (* logging.warning(f"Unsupported log_level '{...}'. Falling back to 'INFO'.") *)

Record Env : Type := mkEnv {
  (** [cfg_path.parent.mkdir(parents=True, exist_ok=True)] *)
  parent_mkdir : outcome unit;
  (** [cfg_path.exists()] *)
  file_exists : bool;
  (** [cfg_path.write_text(text, encoding="utf-8")] *)
  write_text : string -> outcome unit;
  (** [cfg_path.read_text(encoding="utf-8")] *)
  read_text : outcome string;
  (** [json.loads(text)]; [None] when it raises [JSONDecodeError] *)
  json_loads : string -> option Json;
  (** [json.dumps(value, indent=2)] *)
  json_dumps : Json -> string;
  (** [int(s)] for a string; [None] when it raises [ValueError] *)
  int_of_str : string -> option Z;
  (** [s.strip()] for a string that has a character outside ASCII *)
  str_strip : string -> string;
  (** [s.upper()] for a string that has a character outside ASCII *)
  str_upper : string -> string
}.

Definition CM (A : Type) : Type := list Event -> outcome A * list Event.

Definition ret {A : Type} (a : A) : CM A := fun evs => (Returns a, evs).

Definition bind {A B : Type} (m : CM A) (k : A -> CM B) : CM B :=
  fun evs =>
    match m evs with
    | (Returns a, evs') => k a evs'
    | (Raises e, evs') => (Raises e, evs')
    end.

Notation "x <~ m ;; k" := (bind m (fun x => k))
  (at level 61, m at next level, right associativity).
Notation "m ~;; k" := (bind m (fun _ => k))
  (at level 61, right associativity).

Definition raise {A : Type} (e : Error) : CM A := fun evs => (Raises e, evs).

Definition call {A : Type} (r : outcome A) : CM A := fun evs => (r, evs).

Definition emit (ev : Event) : CM unit := fun evs => (Returns tt, evs ++ [ev]).

(** all the characters of [s] are ASCII: no byte is above 127 *)
Fixpoint is_ascii (s : string) : bool :=
  match s with
  | EmptyString => true
  | String c s' => andb (Nat.ltb (nat_of_ascii c) 128) (is_ascii s')
  end.

(** ASCII white space, as [str.isspace] has it *)
Definition is_space (c : ascii) : bool :=
  let n := nat_of_ascii c in
  orb (andb (Nat.leb 9 n) (Nat.leb n 13))
      (orb (andb (Nat.leb 28 n) (Nat.leb n 31)) (Nat.eqb n 32)).

Fixpoint lstrip (s : string) : string :=
  match s with
  | EmptyString => EmptyString
  | String c s' => if is_space c then lstrip s' else s
  end.

Fixpoint rstrip (s : string) : string :=
  match s with
  | EmptyString => EmptyString
  | String c s' =>
      match rstrip s' with
      | EmptyString => if is_space c then EmptyString else String c EmptyString
      | r => String c r
      end
  end.

(** [s.strip()] for a string of ASCII characters *)
Definition ascii_strip (s : string) : string := rstrip (lstrip s).

(** [s.strip()] *)
Definition strip (env : Env) (s : string) : string :=
  if is_ascii s then ascii_strip s else str_strip env s.

Definition upper_char (c : ascii) : ascii :=
  let n := nat_of_ascii c in
  if andb (Nat.leb 97 n) (Nat.leb n 122) then ascii_of_nat (n - 32) else c.

(** [s.upper()] for a string of ASCII characters *)
Fixpoint ascii_upper (s : string) : string :=
  match s with
  | EmptyString => EmptyString
  | String c s' => String (upper_char c) (ascii_upper s')
  end.

(** [s.upper()] *)
Definition upper (env : Env) (s : string) : string :=
  if is_ascii s then ascii_upper s else str_upper env s.

(** [_DEFAULT_CONFIG], and what [_get_default_config()] returns *)
Definition _DEFAULT_CONFIG : Json :=
  JObject [ ("target_folder", JStr "data");
            ("large_file_threshold_mb", JInt 10);
            ("log_level", JStr "DEBUG") ].

Definition _VALID_LOG_LEVELS : list string :=
  ["CRITICAL"; "ERROR"; "WARNING"; "INFO"; "DEBUG"].

(** [level in _VALID_LOG_LEVELS] *)
Definition valid_level (level : string) : bool :=
  existsb (String.eqb level) _VALID_LOG_LEVELS.

(** [isinstance(v, str)] *)
Definition is_str (v : Json) : bool :=
  match v with JStr _ => true | _ => false end.

(** [config.get(key, default)]; only a JSON object has [get] *)
Definition get (config : Json) (key : string) (default : Json) : outcome Json :=
  match config with
  | JObject d =>
      match Dict.get d key with
      | Some v => Returns v
      | None => Returns default
      end
  | _ => Raises (AttributeError "object has no attribute 'get'")
  end.

(** [config[key] = v] on a JSON object *)
Definition setitem (config : Json) (key : string) (v : Json) : Json :=
  match config with
  | JObject d => JObject (Dict.set d key v)
  | _ => config
  end.

(** [int(v)] *)
Definition int (env : Env) (v : Json) : outcome Z :=
  match v with
  | JInt n => Returns n
  | JBool b => Returns (if b then 1 else 0)
  | JFloat FNan => Raises (ValueError "cannot convert float NaN to integer")
  | JFloat (FInf _) =>
      Raises (OverflowError "cannot convert float infinity to integer")
  | JFloat (FFinite n d) => Returns (Z.quot n (Z.pos d))
  | JStr s =>
      match int_of_str env s with
      | Some n => Returns n
      | None => Raises (ValueError "invalid literal for int() with base 10")
      end
  | JNull | JList _ | JObject _ =>
      Raises (TypeError "int() argument must be a string, a bytes-like object or a real number")
  end.

(** [try: config[k] = int(config.get(k, 10))
     except (TypeError, ValueError) as e: raise TypeError(...) from e] *)
Definition coerce_threshold (env : Env) (config : Json) : CM Json :=
  v <~ call (get config "large_file_threshold_mb" (JInt 10)) ;;
  match int env v with
  | Returns n => ret (setitem config "large_file_threshold_mb" (JInt n))
  | Raises (TypeError _) | Raises (ValueError _) =>
      raise (TypeError "config['large_file_threshold_mb'] must be an integer")
  | Raises e => raise e
  end.

(** The statements of [load_config] that validate the config, once it
    has been obtained. *)
Definition validate (env : Env) (config : Json) : CM Json :=
  (* Validate: target_folder *)
  tf <~ call (get config "target_folder" JNull) ;;
  if negb (is_str tf)
  then raise (TypeError "config['target_folder'] must be a string")
  else
    (* Validate: large_file_threshold_mb *)
    config <~ coerce_threshold env config ;;
    (* Validate: log_level *)
    ll <~ call (get config "log_level" JNull) ;;
    match ll with
    | JStr level =>
        let config :=
          setitem config "log_level" (JStr (upper env (strip env level))) in
        if negb (valid_level (upper env (strip env level)))
        then
          emit (LogWarningLevel (upper env (strip env level))) ~;;
          ret (setitem config "log_level" (JStr "INFO"))
        else ret config
    | _ => raise (TypeError "config['log_level'] must be a string")
    end.

(** [load_config(config_path)] *)
Definition load_config (env : Env) (config_path : string) : CM Json :=
  call (parent_mkdir env) ~;;
  config <~
    (if negb (file_exists env)
     then
       let default := _DEFAULT_CONFIG in
       call (write_text env (json_dumps env default)) ~;;
       emit (WriteText (json_dumps env default)) ~;;
       emit (LogInfoCreated config_path) ~;;
       ret default
     else
       text <~ call (read_text env) ;;
       match json_loads env text with
       | Some config => ret config
       | None =>
           raise (ValueError ("Config file is not valid JSON: " +++ config_path))
       end) ;;
  validate env config.

(** a config as [load_config] returns it: a JSON object whose target
    folder is a string, whose threshold is an [int], and whose log level
    is one of the five valid ones *)
Definition well_formed (config : Json) : Prop :=
  exists d folder mb level,
    config = JObject d /\
    Dict.get d "target_folder" = Some (JStr folder) /\
    Dict.get d "large_file_threshold_mb" = Some (JInt mb) /\
    Dict.get d "log_level" = Some (JStr level) /\
    In level _VALID_LOG_LEVELS.

(** [s] consists of white space only *)
Fixpoint all_space (s : string) : bool :=
  match s with
  | EmptyString => true
  | String c s' => andb (is_space c) (all_space s')
  end.

(** [s] holds no white space *)
Fixpoint no_space (s : string) : bool :=
  match s with
  | EmptyString => true
  | String c s' => andb (negb (is_space c)) (no_space s')
  end.

(** the value [load_config] converts to the threshold:
    [config.get("large_file_threshold_mb", 10)] *)
Definition threshold_value (d : Dict.t Json) : Json :=
  match Dict.get d "large_file_threshold_mb" with
  | Some v => v
  | None => JInt 10
  end.

(** the UTF-8 bytes of U+00A0 (no-break space), U+2003 (em space) and
    U+0131 (dotless i) *)
Definition nbsp : string :=
  String (ascii_of_nat 194) (String (ascii_of_nat 160) EmptyString).
Definition em_space : string :=
  String (ascii_of_nat 226)
    (String (ascii_of_nat 128) (String (ascii_of_nat 131) EmptyString)).
Definition dotless_i : string :=
  String (ascii_of_nat 196) (String (ascii_of_nat 177) EmptyString).

(** a sample environment: the config file holds a text that parses to
    [config]; of the strings outside ASCII it knows two, a ["debug"]
    between a no-break space and an em space, and a ["warning"] written
    with a dotless i *)
Definition sample_env (present : bool) (config : option Json) : Env :=
  {| parent_mkdir := Returns tt;
     file_exists := present;
     write_text := fun _ => Returns tt;
     read_text := Returns "<text of the file>";
     json_loads := fun _ => config;
     json_dumps := fun _ => "<json>";
     int_of_str := fun s => if String.eqb s "25" then Some 25 else None;
     str_strip := fun s =>
       if String.eqb s (nbsp +++ "debug" +++ em_space) then "debug" else s;
     str_upper := fun s =>
       if String.eqb s ("warn" +++ dotless_i +++ "ng") then "WARNING" else s |}.

Definition sample_config : Json :=
  JObject [ ("log_level", JStr "  warning ");
            ("target_folder", JStr "input");
            ("note", JList [JInt 1]) ].

End config_loader.

(** * [path_manager.py]

    The file system is a state the oracle [FileSystem] reads and
    changes: [Path.is_dir], [Path.is_file], and [Path.mkdir] with
    [parents=True, exist_ok=True], which may raise. *)

Module path_manager.

Inductive Error : Type :=
| NotADirectoryError (path : string)
    (* f"Directory not found: {p}" *)
| FileNotFoundError (path : string)
    (* f"File not found: {p}" *)
| ValueError (msg : string)
| OSError (msg : string).

Inductive outcome (A : Type) : Type :=
| Returns (a : A)
| Raises (e : Error).
Arguments Returns {A} a.
Arguments Raises {A} e.

Record FileSystem : Type := mkFileSystem {
  state : Type;
  (** [Path(path).is_dir()] *)
  is_dir : state -> string -> bool;
  (** [Path(path).is_file()] *)
  is_file : state -> string -> bool;
  (** [Path(path).mkdir(parents=True, exist_ok=True)] *)
  mkdir : state -> string -> outcome unit * state
}.

(** [PathManager.ensure_exists(path, expected_type, create_if_missing)] *)
Definition ensure_exists (fs : FileSystem) (path expected_type : string)
           (create_if_missing : bool) (st : state fs)
  : outcome bool * state fs :=
  if String.eqb expected_type "dir" then
    if negb (is_dir fs st path) then
      if create_if_missing then
        match mkdir fs st path with
        | (Returns _, st') => (Returns true, st')
        | (Raises e, st') => (Raises e, st')
        end
      else (Raises (NotADirectoryError path), st)
    else (Returns true, st)
  else if String.eqb expected_type "file" then
    if negb (is_file fs st path)
    then (Raises (FileNotFoundError path), st)
    else (Returns true, st)
  else (Raises (ValueError "expected_type must be 'file' or 'dir'"), st).

(** a sample file system: the state is the list of the directories;
    there are no files, and [mkdir] always succeeds *)
Definition sample_fs : FileSystem :=
  {| state := list string;
     is_dir := fun st p => existsb (String.eqb p) st;
     is_file := fun _ _ => false;
     mkdir := fun st p => (Returns tt, p :: st) |}.

End path_manager.

(** the names of a list in the order in which each is first seen *)
Definition first_seen_from (seen names : list string) : list string :=
  fold_left (fun acc n => if existsb (String.eqb n) acc then acc else acc ++ [n])
            names seen.

Definition first_seen (names : list string) : list string :=
  first_seen_from [] names.

(** * Properties *)

(** ** The code on concrete inputs *)

Example basename_ex1 : posixpath.basename "/data/sub/a.txt" = "a.txt".
Proof. reflexivity. Qed.
Example basename_ex2 : posixpath.basename "a.txt" = "a.txt".
Proof. reflexivity. Qed.
Example join_ex1 : posixpath.join "/data/sub" "a.txt" = "/data/sub/a.txt".
Proof. reflexivity. Qed.
Example join_ex2 : posixpath.join "/" "a.txt" = "/a.txt".
Proof. reflexivity. Qed.
Example splitext_ex1 : posixpath.splitext "/data/a.tar.gz" = ("/data/a.tar", ".gz").
Proof. reflexivity. Qed.
Example splitext_ex2 : posixpath.splitext "/data/.bashrc" = ("/data/.bashrc", "").
Proof. reflexivity. Qed.
Example splitext_ex3 : posixpath.splitext "/da.ta/readme" = ("/da.ta/readme", "").
Proof. reflexivity. Qed.
Example splitext_ex4 : posixpath.splitext "/data/..a.b" = ("/data/..a", ".b").
Proof. reflexivity. Qed.
Example splitext_ex5 : posixpath.splitext "/data/a." = ("/data/a", ".").
Proof. reflexivity. Qed.
Example lower_ex : Str.lower "FaIl_Me.LOG" = "fail_me.log".
Proof. reflexivity. Qed.
Example contains_ex : Str.contains "fail" "not_a_fail.txt" = true.
Proof. reflexivity. Qed.
Example of_int_ex : Str.of_int (-12) = "-12" /\ Str.of_int 0 = "0".
Proof. split; reflexivity. Qed.

Example scenario_summary :
  fst (get_summary (snd (scan Scenario.os (mkWorld (init "/root" 10) [])))) =
  Ok {| summary_total_discovered := 4;
        summary_total_processed := 3;
        summary_total_failed := 1;
        summary_extension_count := [(".txt", 2); (".bin", 1)];
        summary_large_files := ["/root/big.bin"];
        summary_duplicates :=
          [("a.txt", ["/root/a.txt"]); ("b.txt", ["/root/b.txt"]);
           ("big.bin", ["/root/big.bin"])] |}.
Proof. vm_compute. reflexivity. Qed.

Example scenario_empty_directory :
  fst (get_summary (snd (scan Scenario.empty_os (mkWorld (init "/root" 10) [])))) =
  Ok {| summary_total_discovered := 0;
        summary_total_processed := 0;
        summary_total_failed := 0;
        summary_extension_count := [];
        summary_large_files := [];
        summary_duplicates := [] |} /\
  ReportWriter.write_duplicates (mkSummary 0 0 0 [] [] []) =
  ["## Duplicate File Names" +++ ReportWriter.nl +++ ReportWriter.nl;
   "_No duplicates found._" +++ ReportWriter.nl].
Proof. split; vm_compute; reflexivity. Qed.

Example sample_scan_counters :
  let s := self (snd (scan Sample.os Sample.fresh)) in
  (total_discovered s, total_processed s, total_failed s) = (11, 7, 4).
Proof. vm_compute. reflexivity. Qed.

Example sorted_by_count_is_stable :
  ReportWriter.sorted_by_count_desc [("a", 1); ("b", 2); ("c", 1); ("d", 2)] =
  [("b", 2); ("d", 2); ("a", 1); ("c", 1)].
Proof. reflexivity. Qed.

(** ** The code performs the derived description *)

Lemma _extract_metadata_outcome (os : OS) (p : string) (w : World) :
  _extract_metadata os p w =
  match outcome os p with
  | Processed r => (Ok r, record_file r w)
  | Failed _ e => (Raise e, w)
  end.
Proof.
  unfold _extract_metadata, outcome.
  destruct (name_has_fail p); [reflexivity|].
  unfold bind at 1. unfold call at 1.
  destruct (getsize os p) as [sz|e]; [|reflexivity].
  unfold bind at 1. unfold call at 1.
  destruct (getmtime os p) as [t|e]; [|reflexivity].
  unfold bind at 1. unfold call at 1.
  destruct (fromtimestamp os t) as [dt|e]; [|reflexivity].
  unfold record_file, bind, update_self, read_self, logging, ret; simpl.
  destruct (sz =? 0); simpl; [reflexivity|].
  destruct (sz >? _); reflexivity.
Qed.

Lemma outcome_failed_path (os : OS) (p q : string) (e : Exception) :
  outcome os p = Failed q e -> q = p.
Proof.
  unfold outcome.
  destruct (name_has_fail p); [congruence|].
  destruct (getsize os p); [|congruence].
  destruct (getmtime os p) as [t|]; [|congruence].
  destruct (fromtimestamp os t); congruence.
Qed.

Lemma outcome_processed_path (os : OS) (p : string) (r : FileRecord) :
  outcome os p = Processed r -> path r = p /\ name_has_fail p = false.
Proof.
  unfold outcome.
  destruct (name_has_fail p); [congruence|].
  destruct (getsize os p); [|congruence].
  destruct (getmtime os p) as [t|]; [|congruence].
  destruct (fromtimestamp os t); [|congruence].
  intros H. injection H as <-. split; reflexivity.
Qed.

Lemma scan_file_outcome (os : OS) (root filename : string) (w : World) :
  scan_file os root filename w =
  (Ok (yield_of (outcome os (posixpath.join root filename))),
   apply_outcome w (outcome os (posixpath.join root filename))).
Proof.
  unfold scan_file, bind at 1, update_self at 1, try_except, bind at 1.
  rewrite _extract_metadata_outcome.
  destruct (outcome os _) as [r|p e] eqn:E; [reflexivity|].
  apply outcome_failed_path in E. subst p. reflexivity.
Qed.

Lemma scan_files_outcomes (os : OS) (root : string) (files : list string) :
  forall w,
    for_yield (scan_file os root) files w =
    (Ok (map yield_of (map (outcome os) (map (posixpath.join root) files))),
     fold_left apply_outcome
               (map (outcome os) (map (posixpath.join root) files)) w).
Proof.
  induction files as [|f files IH]; intros w; [reflexivity|].
  simpl. unfold bind at 1. rewrite scan_file_outcome.
  unfold bind at 1. rewrite IH. reflexivity.
Qed.

Lemma scan_walk_outcomes (os : OS)
      (tree : list (string * list string * list string)) (w : World) :
  scan_walk os tree w =
  (Ok (map yield_of (map (outcome os) (walk_paths tree))),
   fold_left apply_outcome (map (outcome os) (walk_paths tree)) w).
Proof.
  unfold scan_walk, bind at 1.
  assert (H : forall w,
             for_yield (fun '(root, _, files) => for_yield (scan_file os root) files)
                       tree w =
             (Ok (map (fun '(root, _, files) =>
                         map yield_of (map (outcome os)
                                           (map (posixpath.join root) files)))
                      tree),
              fold_left apply_outcome (map (outcome os) (walk_paths tree)) w)).
  { clear w. induction tree as [|[[root dirs] files] tree IH]; intros w.
    - reflexivity.
    - simpl. unfold bind at 1. rewrite scan_files_outcomes.
      unfold bind at 1. rewrite IH. unfold ret.
      rewrite map_app, fold_left_app. reflexivity. }
  rewrite H. unfold ret. f_equal. f_equal.
  clear. induction tree as [|[[root dirs] files] tree IH]; [reflexivity|].
  simpl. rewrite IH, !map_app. reflexivity.
Qed.

(** ** Dictionaries *)

Section DictFacts.

Context {V : Type}.
Implicit Types (d : Dict.t V) (k : string) (v : V).

Lemma get_set_eq d k v : Dict.get (Dict.set d k v) k = Some v.
Proof.
  induction d as [|[k' v'] d IH]; simpl.
  - now rewrite String.eqb_refl.
  - destruct (String.eqb k' k) eqn:E; simpl; rewrite E; auto.
Qed.

Lemma get_set_ne d k k' v :
  k' <> k -> Dict.get (Dict.set d k v) k' = Dict.get d k'.
Proof.
  intros Hne. induction d as [|[k0 v0] d IH]; simpl.
  - destruct (String.eqb k k') eqn:E; [|reflexivity].
    apply String.eqb_eq in E. congruence.
  - destruct (String.eqb k0 k) eqn:E; simpl.
    + apply String.eqb_eq in E. subst k0.
      destruct (String.eqb k k') eqn:E'; [|reflexivity].
      apply String.eqb_eq in E'. congruence.
    + now rewrite IH.
Qed.

Lemma get_In d k v : Dict.get d k = Some v -> In (k, v) d.
Proof.
  induction d as [|[k' v'] d IH]; simpl; [discriminate|].
  destruct (String.eqb k' k) eqn:E.
  - apply String.eqb_eq in E. intros [= <-]. subst. now left.
  - intros H. right. auto.
Qed.

Lemma In_set d k v k' v' :
  In (k', v') (Dict.set d k v) -> (k' = k /\ v' = v) \/ In (k', v') d.
Proof.
  induction d as [|[k0 v0] d IH]; simpl.
  - intros [[= <- <-]|[]]. now left.
  - destruct (String.eqb k0 k) eqn:E; simpl.
    + apply String.eqb_eq in E. subst k0.
      intros [[= <- <-]|H]; [now left|right; now right].
    + intros [H|H]; [right; now left|].
      destruct (IH H) as [?|?]; [now left|right; now right].
Qed.

Lemma In_keys_set d k v k' :
  In k' (Dict.keys (Dict.set d k v)) <-> k' = k \/ In k' (Dict.keys d).
Proof.
  unfold Dict.keys. induction d as [|[k0 v0] d IH]; simpl.
  - intuition congruence.
  - destruct (String.eqb k0 k) eqn:E; simpl.
    + apply String.eqb_eq in E. subst k0. intuition congruence.
    + rewrite IH. intuition congruence.
Qed.

Lemma NoDup_keys_set d k v :
  NoDup (Dict.keys d) -> NoDup (Dict.keys (Dict.set d k v)).
Proof.
  induction d as [|[k0 v0] d IH]; simpl; intros H.
  - constructor; [intros []|constructor].
  - inversion H as [|? ? Hnotin Hnd]; subst.
    destruct (String.eqb k0 k) eqn:E; simpl.
    + constructor; assumption.
    + constructor; [|now apply IH].
      intros Hin. apply In_keys_set in Hin as [->|Hin]; [|contradiction].
      now rewrite String.eqb_refl in E.
Qed.

Lemma In_get d k v : NoDup (Dict.keys d) -> In (k, v) d -> Dict.get d k = Some v.
Proof.
  induction d as [|[k0 v0] d IH]; simpl; intros Hnd Hin; [contradiction|].
  inversion Hnd as [|? ? Hnotin Hnd']; subst.
  destruct Hin as [[= -> ->]|Hin].
  - now rewrite String.eqb_refl.
  - destruct (String.eqb k0 k) eqn:E; [|auto].
    apply String.eqb_eq in E. subst k0.
    exfalso. apply Hnotin. unfold Dict.keys.
    change k with (fst (k, v)). now apply in_map.
Qed.

Lemma dict_total_set (f : V -> Z) d k v :
  dict_total f (Dict.set d k v) =
  dict_total f d
  - match Dict.get d k with Some old => f old | None => 0 end
  + f v.
Proof.
  unfold dict_total. induction d as [|[k0 v0] d IH]; simpl; [lia|].
  destruct (String.eqb k0 k); simpl; [lia|]. rewrite IH. lia.
Qed.

Lemma set_set d k v0 v : Dict.set (Dict.set d k v0) k v = Dict.set d k v.
Proof.
  induction d as [|[k' v'] d IH]; simpl.
  - now rewrite String.eqb_refl.
  - destruct (String.eqb k' k) eqn:E; simpl; rewrite E; [reflexivity|].
    now rewrite IH.
Qed.

(** writing to a key just read from a [defaultdict] *)
Lemma set_getitem_default (dflt : V) d k v :
  Dict.set (snd (Dict.getitem_default dflt d k)) k v = Dict.set d k v.
Proof.
  unfold Dict.getitem_default.
  destruct (Dict.get d k) eqn:E; simpl; [reflexivity|].
  apply set_set.
Qed.

Lemma fst_getitem_default (dflt : V) d k :
  fst (Dict.getitem_default dflt d k) =
  match Dict.get d k with Some v => v | None => dflt end.
Proof.
  unfold Dict.getitem_default. now destruct (Dict.get d k).
Qed.

End DictFacts.

(** ** The three writes of a successful extraction *)

Lemma extension_count_incr_eq (ext : string) (s : FileScanner) :
  extension_count_incr ext s =
  set_extension_count
    (Dict.set (extension_count s) ext (count_of (extension_count s) ext + 1)) s.
Proof.
  unfold extension_count_incr, count_of.
  pose proof (set_getitem_default 0 (extension_count s) ext) as Hset.
  pose proof (fst_getitem_default 0 (extension_count s) ext) as Hfst.
  destruct (Dict.getitem_default 0 (extension_count s) ext) as [n d].
  simpl in *. now rewrite Hset, Hfst.
Qed.

Lemma duplicates_append_eq (name p : string) (s : FileScanner) :
  duplicates_append name p s =
  set_duplicates
    (Dict.set (duplicates s) name (paths_of (duplicates s) name ++ [p])) s.
Proof.
  unfold duplicates_append, paths_of.
  pose proof (set_getitem_default [] (duplicates s) name) as Hset.
  pose proof (fst_getitem_default [] (duplicates s) name) as Hfst.
  destruct (Dict.getitem_default [] (duplicates s) name) as [l d].
  simpl in *. now rewrite Hset, Hfst.
Qed.

(** [record_file] with its three writes spelled out *)
Lemma record_file_self (r : FileRecord) (w : World) :
  self (record_file r w) =
  let s := self w in
  {| root_path := root_path s;
     large_file_threshold_bytes := large_file_threshold_bytes s;
     total_discovered := total_discovered s;
     total_processed := total_processed s;
     total_failed := total_failed s;
     extension_count :=
       Dict.set (extension_count s) (extension r)
                (count_of (extension_count s) (extension r) + 1);
     large_files :=
       if andb (negb (size r =? 0)) (size r >? large_file_threshold_bytes s)
       then large_files s ++ [path r] else large_files s;
     duplicates :=
       Dict.set (duplicates s) (posixpath.basename (path r))
                (paths_of (duplicates s) (posixpath.basename (path r)) ++ [path r])
  |}.
Proof.
  unfold record_file. rewrite duplicates_append_eq, extension_count_incr_eq.
  destruct (size r =? 0); simpl; [reflexivity|].
  destruct (size r >? _); reflexivity.
Qed.

Lemma record_file_log (r : FileRecord) (w : World) :
  log (record_file r w) =
  log w ++
  (if size r =? 0 then [mkLogRecord WARNING (MsgZeroByte (path r))]
   else if size r >? large_file_threshold_bytes (self w)
        then [mkLogRecord WARNING
                (MsgLargeFile (large_file_threshold_bytes (self w) / (1024 * 1024))
                              (path r) (size r))]
        else []).
Proof.
  unfold record_file. rewrite extension_count_incr_eq.
  destruct (size r =? 0); simpl; [reflexivity|].
  destruct (size r >? _); simpl; [reflexivity|].
  now rewrite app_nil_r.
Qed.

(** ** One round of the loop, field by field *)

Ltac unfold_round :=
  unfold apply_outcome, count_processed, count_failed;
  cbn [self log];
  try rewrite record_file_self;
  try rewrite record_file_log;
  unfold discover;
  cbn.

Section ApplyOutcome.

Variables (w : World) (o : Outcome).

Lemma apply_outcome_root_path :
  root_path (self (apply_outcome w o)) = root_path (self w).
Proof. destruct o; unfold_round; reflexivity. Qed.

Lemma apply_outcome_threshold :
  large_file_threshold_bytes (self (apply_outcome w o)) =
  large_file_threshold_bytes (self w).
Proof. destruct o; unfold_round; reflexivity. Qed.

Lemma apply_outcome_discovered :
  total_discovered (self (apply_outcome w o)) = total_discovered (self w) + 1.
Proof. destruct o; unfold_round; reflexivity. Qed.

Lemma apply_outcome_processed :
  total_processed (self (apply_outcome w o)) =
  total_processed (self w) + match o with Processed _ => 1 | Failed _ _ => 0 end.
Proof. destruct o; unfold_round; lia. Qed.

Lemma apply_outcome_failed :
  total_failed (self (apply_outcome w o)) =
  total_failed (self w) + match o with Processed _ => 0 | Failed _ _ => 1 end.
Proof. destruct o; unfold_round; lia. Qed.

Lemma apply_outcome_extension_count :
  extension_count (self (apply_outcome w o)) =
  match o with
  | Processed r =>
      Dict.set (extension_count (self w)) (extension r)
               (count_of (extension_count (self w)) (extension r) + 1)
  | Failed _ _ => extension_count (self w)
  end.
Proof. destruct o; unfold_round; reflexivity. Qed.

Lemma apply_outcome_large_files :
  large_files (self (apply_outcome w o)) =
  match o with
  | Processed r =>
      if is_large (large_file_threshold_bytes (self w)) r
      then large_files (self w) ++ [path r] else large_files (self w)
  | Failed _ _ => large_files (self w)
  end.
Proof. destruct o; unfold_round; reflexivity. Qed.

Lemma apply_outcome_duplicates :
  duplicates (self (apply_outcome w o)) =
  match o with
  | Processed r =>
      Dict.set (duplicates (self w)) (posixpath.basename (path r))
               (paths_of (duplicates (self w)) (posixpath.basename (path r))
                ++ [path r])
  | Failed _ _ => duplicates (self w)
  end.
Proof. destruct o; unfold_round; reflexivity. Qed.

Lemma apply_outcome_log :
  log (apply_outcome w o) =
  log w ++
  match o with
  | Processed r =>
      if size r =? 0 then [mkLogRecord WARNING (MsgZeroByte (path r))]
      else if size r >? large_file_threshold_bytes (self w)
           then [mkLogRecord WARNING
                   (MsgLargeFile (large_file_threshold_bytes (self w) / (1024 * 1024))
                                 (path r) (size r))]
           else []
  | Failed p e => [mkLogRecord ERROR (MsgFailed p e)]
  end.
Proof. destruct o; unfold_round; reflexivity. Qed.

End ApplyOutcome.

(** ** A whole traversal, field by field *)

Section Traversal.

Implicit Types (outs : list Outcome) (w : World).

Lemma traversal_root_path outs : forall w,
  root_path (self (fold_left apply_outcome outs w)) = root_path (self w).
Proof.
  induction outs as [|o outs IH]; intros w; simpl; [reflexivity|].
  now rewrite IH, apply_outcome_root_path.
Qed.

Lemma traversal_threshold outs : forall w,
  large_file_threshold_bytes (self (fold_left apply_outcome outs w)) =
  large_file_threshold_bytes (self w).
Proof.
  induction outs as [|o outs IH]; intros w; simpl; [reflexivity|].
  now rewrite IH, apply_outcome_threshold.
Qed.

Lemma traversal_discovered outs : forall w,
  total_discovered (self (fold_left apply_outcome outs w)) =
  total_discovered (self w) + Z.of_nat (List.length outs).
Proof.
  induction outs as [|o outs IH]; intros w; simpl List.length; simpl fold_left.
  - simpl. lia.
  - rewrite IH, apply_outcome_discovered. lia.
Qed.

Lemma traversal_processed outs : forall w,
  total_processed (self (fold_left apply_outcome outs w)) =
  total_processed (self w)
  + Z.of_nat (List.length (processed_records (map yield_of outs))).
Proof.
  induction outs as [|o outs IH]; intros w; simpl fold_left.
  - simpl. lia.
  - rewrite IH, apply_outcome_processed. destruct o; simpl yield_of;
      simpl processed_records; simpl List.length; lia.
Qed.

Lemma traversal_failed outs : forall w,
  total_failed (self (fold_left apply_outcome outs w)) =
  total_failed (self w) + count_none (map yield_of outs).
Proof.
  induction outs as [|o outs IH]; intros w; simpl fold_left.
  - simpl. lia.
  - rewrite IH, apply_outcome_failed.
    destruct o; cbn [map yield_of count_none]; lia.
Qed.

Lemma traversal_counters_ok outs : forall w,
  counters_ok (self w) -> counters_ok (self (fold_left apply_outcome outs w)).
Proof.
  induction outs as [|o outs IH]; intros w H; simpl; [assumption|].
  apply IH. unfold counters_ok in *.
  rewrite apply_outcome_discovered, apply_outcome_processed,
    apply_outcome_failed.
  destruct o; lia.
Qed.

End Traversal.

(** ** The aggregates after a traversal *)

Lemma paths_of_set (d : Dict.t (list string)) (k name : string) (l : list string) :
  paths_of (Dict.set d k l) name = if String.eqb k name then l else paths_of d name.
Proof.
  unfold paths_of. destruct (String.eqb k name) eqn:E.
  - apply String.eqb_eq in E. subst. now rewrite get_set_eq.
  - apply String.eqb_neq in E. rewrite get_set_ne; congruence.
Qed.

Lemma count_of_set (d : Dict.t Z) (k ext : string) (n : Z) :
  count_of (Dict.set d k n) ext = if String.eqb k ext then n else count_of d ext.
Proof.
  unfold count_of. destruct (String.eqb k ext) eqn:E.
  - apply String.eqb_eq in E. subst. now rewrite get_set_eq.
  - apply String.eqb_neq in E. rewrite get_set_ne; congruence.
Qed.

Lemma sum_counts_incr (d : Dict.t Z) (ext : string) :
  sum_counts (Dict.set d ext (count_of d ext + 1)) = sum_counts d + 1.
Proof.
  unfold sum_counts. rewrite dict_total_set. unfold count_of.
  destruct (Dict.get d ext); lia.
Qed.

Lemma count_paths_append (d : Dict.t (list string)) (name p : string) :
  count_paths (Dict.set d name (paths_of d name ++ [p])) = count_paths d + 1.
Proof.
  unfold count_paths. rewrite dict_total_set. unfold paths_of.
  destruct (Dict.get d name); rewrite length_app; simpl List.length; lia.
Qed.

Section Aggregates.

Implicit Types (outs : list Outcome) (w : World).

Lemma traversal_large_files outs : forall w,
  large_files (self (fold_left apply_outcome outs w)) =
  large_files (self w) ++
  map path (filter (is_large (large_file_threshold_bytes (self w)))
                   (processed_records (map yield_of outs))).
Proof.
  induction outs as [|o outs IH]; intros w; simpl fold_left.
  - simpl. now rewrite app_nil_r.
  - rewrite IH, apply_outcome_large_files, apply_outcome_threshold.
    destruct o as [r|p e]; cbn [map yield_of processed_records filter];
      [|reflexivity].
    destruct (is_large _ r); cbn [map]; [|reflexivity].
    now rewrite <- app_assoc.
Qed.

Lemma traversal_paths_of outs (name : string) : forall w,
  paths_of (duplicates (self (fold_left apply_outcome outs w))) name =
  paths_of (duplicates (self w)) name ++
  paths_named name (processed_records (map yield_of outs)).
Proof.
  unfold paths_named.
  induction outs as [|o outs IH]; intros w; simpl fold_left.
  - simpl. now rewrite app_nil_r.
  - rewrite IH, apply_outcome_duplicates.
    destruct o as [r|p e]; cbn [map yield_of processed_records filter];
      [|reflexivity].
    rewrite paths_of_set.
    destruct (String.eqb (posixpath.basename (path r)) name) eqn:E;
      [|reflexivity].
    apply String.eqb_eq in E. rewrite E. now rewrite <- app_assoc.
Qed.

Lemma traversal_count_of outs (ext : string) : forall w,
  count_of (extension_count (self (fold_left apply_outcome outs w))) ext =
  count_of (extension_count (self w)) ext +
  count_ext ext (processed_records (map yield_of outs)).
Proof.
  unfold count_ext.
  induction outs as [|o outs IH]; intros w; simpl fold_left.
  - simpl. lia.
  - rewrite IH, apply_outcome_extension_count.
    destruct o as [r|p e]; cbn [map yield_of processed_records filter];
      [|reflexivity].
    rewrite count_of_set.
    destruct (String.eqb (extension r) ext) eqn:E; [|reflexivity].
    apply String.eqb_eq in E. subst ext. simpl List.length. lia.
Qed.

(** a name is a key of the duplicate index exactly when it was one
    before or some processed file bears it *)
Lemma traversal_duplicates_key outs (name : string) : forall w,
  Dict.get (duplicates (self (fold_left apply_outcome outs w))) name =
  match paths_named name (processed_records (map yield_of outs)) with
  | [] => Dict.get (duplicates (self w)) name
  | _ :: _ =>
      Some (paths_of (duplicates (self w)) name ++
            paths_named name (processed_records (map yield_of outs)))
  end.
Proof.
  unfold paths_named.
  induction outs as [|o outs IH]; intros w; simpl fold_left; [reflexivity|].
  rewrite IH, apply_outcome_duplicates.
  destruct o as [r|p e]; cbn [map yield_of processed_records filter];
    [|reflexivity].
  rewrite paths_of_set.
  destruct (String.eqb (posixpath.basename (path r)) name) eqn:E.
  - apply String.eqb_eq in E. rewrite E, get_set_eq.
    destruct (filter _ _); [reflexivity|].
    now rewrite <- app_assoc.
  - apply String.eqb_neq in E. rewrite get_set_ne by congruence.
    reflexivity.
Qed.

Lemma traversal_extension_key outs (ext : string) : forall w,
  Dict.get (extension_count (self (fold_left apply_outcome outs w))) ext =
  if count_ext ext (processed_records (map yield_of outs)) =? 0
  then Dict.get (extension_count (self w)) ext
  else Some (count_of (extension_count (self w)) ext +
             count_ext ext (processed_records (map yield_of outs))).
Proof.
  unfold count_ext.
  induction outs as [|o outs IH]; intros w; simpl fold_left; [reflexivity|].
  rewrite IH, apply_outcome_extension_count.
  destruct o as [r|p e]; cbn [map yield_of processed_records filter];
    [|reflexivity].
  rewrite count_of_set.
  destruct (String.eqb (extension r) ext) eqn:E.
  - apply String.eqb_eq in E. subst ext. rewrite get_set_eq.
    cbn [List.length].
    set (n := List.length (filter _ _)).
    replace (Z.of_nat (S n) =? 0) with false
      by (symmetry; apply Z.eqb_neq; lia).
    destruct (Z.of_nat n =? 0) eqn:E0; f_equal; [apply Z.eqb_eq in E0|]; lia.
  - apply String.eqb_neq in E. rewrite get_set_ne by congruence.
    reflexivity.
Qed.

Lemma traversal_sum_counts outs : forall w,
  sum_counts (extension_count (self (fold_left apply_outcome outs w))) =
  sum_counts (extension_count (self w)) +
  Z.of_nat (List.length (processed_records (map yield_of outs))).
Proof.
  induction outs as [|o outs IH]; intros w; simpl fold_left.
  - simpl. lia.
  - rewrite IH, apply_outcome_extension_count.
    destruct o as [r|p e]; cbn [map yield_of processed_records List.length];
      [|reflexivity].
    rewrite sum_counts_incr. lia.
Qed.

Lemma traversal_count_paths outs : forall w,
  count_paths (duplicates (self (fold_left apply_outcome outs w))) =
  count_paths (duplicates (self w)) +
  Z.of_nat (List.length (processed_records (map yield_of outs))).
Proof.
  induction outs as [|o outs IH]; intros w; simpl fold_left.
  - simpl. lia.
  - rewrite IH, apply_outcome_duplicates.
    destruct o as [r|p e]; cbn [map yield_of processed_records List.length];
      [|reflexivity].
    rewrite count_paths_append. lia.
Qed.

Lemma traversal_keys_NoDup outs : forall w,
  NoDup (Dict.keys (duplicates (self w))) ->
  NoDup (Dict.keys (extension_count (self w))) ->
  NoDup (Dict.keys (duplicates (self (fold_left apply_outcome outs w)))) /\
  NoDup (Dict.keys (extension_count (self (fold_left apply_outcome outs w)))).
Proof.
  induction outs as [|o outs IH]; intros w Hd He; simpl fold_left; [now split|].
  apply IH.
  - rewrite apply_outcome_duplicates. destruct o; [|assumption].
    now apply NoDup_keys_set.
  - rewrite apply_outcome_extension_count. destruct o; [|assumption].
    now apply NoDup_keys_set.
Qed.

End Aggregates.

(** the records of a traversal come from files that were listed and whose
    name does not contain "fail" *)
Lemma processed_records_origin (os : OS) (paths : list string) (r : FileRecord) :
  In r (processed_records (map yield_of (map (outcome os) paths))) ->
  In (path r) paths /\ outcome os (path r) = Processed r /\
  name_has_fail (path r) = false.
Proof.
  induction paths as [|p paths IH]; simpl; [intros []|].
  destruct (outcome os p) as [r'|q e] eqn:E; simpl.
  - intros [->|H].
    + destruct (outcome_processed_path _ _ _ E) as [Hp Hf].
      rewrite Hp. auto.
    + destruct (IH H) as (? & ? & ?). auto.
  - intros H. destruct (IH H) as (? & ? & ?). auto.
Qed.

Lemma filter_length_le {A : Type} (f : A -> bool) (l : list A) :
  (List.length (filter f l) <= List.length l)%nat.
Proof.
  induction l as [|a l IH]; simpl; [lia|]. destruct (f a); simpl; lia.
Qed.

(** ** [_verify_counters], [get_summary] and [scan] *)

Lemma counters_ok_eqb (s : FileScanner) :
  (total_discovered s =? total_processed s + total_failed s) = true <->
  counters_ok s.
Proof. unfold counters_ok. apply Z.eqb_eq. Qed.

Lemma _verify_counters_run (w : World) :
  _verify_counters w =
  if total_discovered (self w) =? total_processed (self w) + total_failed (self w)
  then (Ok tt, w)
  else (Raise (RuntimeError (counter_mismatch_msg (self w))), w).
Proof.
  unfold _verify_counters, bind, read_self, raise, ret.
  now destruct (_ =? _).
Qed.

Lemma get_summary_run (w : World) :
  get_summary w =
  if total_discovered (self w) =? total_processed (self w) + total_failed (self w)
  then (Ok {| summary_total_discovered := total_discovered (self w);
              summary_total_processed := total_processed (self w);
              summary_total_failed := total_failed (self w);
              summary_extension_count := extension_count (self w);
              summary_large_files := large_files (self w);
              summary_duplicates := duplicates (self w) |}, w)
  else (Raise (RuntimeError (counter_mismatch_msg (self w))), w).
Proof.
  unfold get_summary, bind at 1. rewrite _verify_counters_run.
  now destruct (_ =? _).
Qed.

Lemma scan_run (os : OS) (w : World) :
  scan os w =
  let w1 := fold_left apply_outcome (scan_outcomes os w) w in
  if total_discovered (self w1) =? total_processed (self w1) + total_failed (self w1)
  then (Ok (map yield_of (scan_outcomes os w)), w1)
  else (Raise (RuntimeError (counter_mismatch_msg (self w1))), w1).
Proof.
  unfold scan, bind at 1, read_self at 1, bind at 1.
  rewrite scan_walk_outcomes. unfold bind at 1.
  rewrite _verify_counters_run. fold (scan_outcomes os w). cbv zeta.
  now destruct (_ =? _).
Qed.

Lemma scan_run_ok (os : OS) (w : World) :
  counters_ok (self w) ->
  scan os w = (Ok (map yield_of (scan_outcomes os w)),
               fold_left apply_outcome (scan_outcomes os w) w).
Proof.
  intros H. rewrite scan_run. cbv zeta.
  apply (traversal_counters_ok (scan_outcomes os w)) in H.
  apply counters_ok_eqb in H. now rewrite H.
Qed.

Lemma counters_ok_init (root : string) (mb : Z) : counters_ok (init root mb).
Proof. reflexivity. Qed.

(** ** The counter invariant *)

(** C1. A completed scan leaves [total_discovered = total_processed +
    total_failed]: a scan of a scanner whose counters agree (a new one
    in particular) returns and its counters agree again.  The equation is
    tested when the traversal is exhausted and at every call of
    [get_summary]; where it fails, the call raises [RuntimeError] and
    leaves the scanner as it is, counters included. *)
Theorem counter_invariant_checked (os : OS) :
  (forall w, counters_ok (self w) ->
     exists ys w', scan os w = (Ok ys, w') /\ counters_ok (self w')) /\
  (forall root mb lg,
     exists ys w', scan os (mkWorld (init root mb) lg) = (Ok ys, w') /\
                   counters_ok (self w')) /\
  (forall w ys w1,
     scan_walk os (os_walk os (root_path (self w))) w = (Ok ys, w1) ->
     ~ counters_ok (self w1) ->
     exists msg, scan os w = (Raise (RuntimeError msg), w1)) /\
  (forall w, counters_ok (self w) ->
     exists sm, get_summary w = (Ok sm, w) /\
                summary_total_discovered sm = total_discovered (self w) /\
                summary_total_processed sm = total_processed (self w) /\
                summary_total_failed sm = total_failed (self w) /\
                summary_total_discovered sm =
                summary_total_processed sm + summary_total_failed sm) /\
  (forall w, ~ counters_ok (self w) ->
     exists msg, get_summary w = (Raise (RuntimeError msg), w)).
Proof.
  assert (H1 : forall w, counters_ok (self w) ->
     exists ys w', scan os w = (Ok ys, w') /\ counters_ok (self w')).
  { intros w H. eexists. eexists. split; [now apply scan_run_ok|].
    now apply traversal_counters_ok. }
  split; [exact H1|]. split; [|split; [|split]].
  - intros root mb lg. apply H1. apply counters_ok_init.
  - intros w ys w1 Hwalk Hbad.
    rewrite scan_walk_outcomes in Hwalk. injection Hwalk as _ Hw1.
    rewrite scan_run. cbv zeta. fold (scan_outcomes os w) in Hw1. rewrite Hw1.
    destruct (_ =? _) eqn:E; [apply counters_ok_eqb in E; contradiction|].
    eexists. reflexivity.
  - intros w H. rewrite get_summary_run.
    pose proof H as Hb. apply counters_ok_eqb in Hb. rewrite Hb.
    eexists. split; [reflexivity|]. simpl. auto.
  - intros w H. rewrite get_summary_run.
    destruct (_ =? _) eqn:E; [apply counters_ok_eqb in E; contradiction|].
    eexists. reflexivity.
Qed.

Lemma counter_invariant_checked_witness :
  (exists ys w', scan Sample.os Sample.fresh = (Ok ys, w') /\
                 counters_ok (self w')) /\
  (exists msg, scan Sample.os Sample.tampered =
               (Raise (RuntimeError msg),
                snd (scan_walk Sample.os Sample.tree Sample.tampered))) /\
  (exists sm, get_summary Sample.fresh = (Ok sm, Sample.fresh) /\
              summary_total_discovered sm = 0 /\
              summary_total_processed sm = 0 /\
              summary_total_failed sm = 0 /\
              summary_total_discovered sm =
              summary_total_processed sm + summary_total_failed sm) /\
  (exists msg, get_summary Sample.tampered =
               (Raise (RuntimeError msg), Sample.tampered)).
Proof.
  destruct (counter_invariant_checked Sample.os) as (H1 & _ & H3 & H4 & H5).
  split; [|split; [|split]].
  - apply H1. reflexivity.
  - eapply H3.
    + vm_compute. reflexivity.
    + vm_compute. discriminate.
  - apply (H4 Sample.fresh). reflexivity.
  - apply H5. vm_compute. discriminate.
Defined.

(** ** Failures of the extraction *)

Lemma extract_raises_outcome (os : OS) (p : string) (w : World) (e : Exception) :
  fst (_extract_metadata os p w) = Raise e <-> outcome os p = Failed p e.
Proof.
  rewrite _extract_metadata_outcome.
  destruct (outcome os p) as [r|q e'] eqn:E; simpl.
  - split; discriminate.
  - apply outcome_failed_path in E. subst q. split; congruence.
Qed.

Lemma extract_returns_outcome (os : OS) (p : string) (w : World) (r : FileRecord) :
  fst (_extract_metadata os p w) = Ok r <-> outcome os p = Processed r.
Proof.
  rewrite _extract_metadata_outcome.
  destruct (outcome os p) as [r'|q e'] eqn:E; simpl; split; congruence.
Qed.

Lemma traversal_log_grows (outs : list Outcome) (x : LogRecord) : forall w,
  In x (log w) -> In x (log (fold_left apply_outcome outs w)).
Proof.
  induction outs as [|o outs IH]; intros w H; simpl; [assumption|].
  apply IH. rewrite apply_outcome_log. apply in_or_app. now left.
Qed.

Lemma traversal_log_failed (outs : list Outcome) (p : string) (e : Exception) :
  forall w,
    In (Failed p e) outs ->
    In (mkLogRecord ERROR (MsgFailed p e)) (log (fold_left apply_outcome outs w)).
Proof.
  induction outs as [|o outs IH]; intros w; simpl; [intros []|].
  intros [->|H]; [|now apply IH].
  apply traversal_log_grows. rewrite apply_outcome_log.
  apply in_or_app. right. now left.
Qed.

(** C2. When the extraction raises for a discovered file, the round of
    the loop for that file ends normally: [total_failed] is one more, an
    [ERROR] record with the path and the exception is logged, [None] is
    yielded, and nothing else changes.  The traversal never raises: it
    yields one value for every file listed, [None] in the place of each
    file whose extraction raises, and counts and logs each of them. *)
Theorem extraction_failure_is_recovered (os : OS) :
  (forall root filename w e w1,
     _extract_metadata os (posixpath.join root filename) (discover w) =
       (Raise e, w1) ->
     scan_file os root filename w =
       (Ok None,
        mkWorld (set_total_failed (total_failed (self w) + 1)
                   (set_total_discovered (total_discovered (self w) + 1) (self w)))
                (log w ++ [mkLogRecord ERROR
                             (MsgFailed (posixpath.join root filename) e)]))) /\
  (forall tree w,
     exists ys w',
       scan_walk os tree w = (Ok ys, w') /\
       List.length ys = List.length (walk_paths tree) /\
       total_discovered (self w') =
         total_discovered (self w) + Z.of_nat (List.length ys) /\
       total_failed (self w') = total_failed (self w) + count_none ys /\
       forall i p e w0,
         nth_error (walk_paths tree) i = Some p ->
         fst (_extract_metadata os p w0) = Raise e ->
         nth_error ys i = Some None /\
         In (mkLogRecord ERROR (MsgFailed p e)) (log w')).
Proof.
  split.
  - intros root filename w e w1 H.
    rewrite scan_file_outcome.
    rewrite _extract_metadata_outcome in H.
    destruct (outcome os _) as [r|q e'] eqn:E; [discriminate|].
    apply outcome_failed_path in E. subst q.
    injection H as -> _. reflexivity.
  - intros tree w. eexists. eexists.
    split; [apply scan_walk_outcomes|].
    split; [now rewrite !length_map|].
    split; [now rewrite traversal_discovered, !length_map|].
    split; [apply traversal_failed|].
    intros i p e w0 Hi He. apply extract_raises_outcome in He. split.
    + rewrite map_map. erewrite map_nth_error by eassumption.
      now rewrite He.
    + apply traversal_log_failed. rewrite <- He.
      apply in_map. eapply nth_error_In; eassumption.
Qed.

Lemma extraction_failure_is_recovered_witness :
  scan_file Sample.os "/data" "gone.txt" Sample.fresh =
    (Ok None,
     mkWorld (set_total_failed 1 (set_total_discovered 1 (init "/data" 10)))
             [mkLogRecord ERROR
                (MsgFailed "/data/gone.txt"
                   (OSError "[Errno 2] No such file or directory"))]) /\
  exists ys w',
    scan_walk Sample.os Sample.tree Sample.fresh = (Ok ys, w') /\
    nth_error ys 6 = Some None /\
    In (mkLogRecord ERROR
          (MsgFailed "/data/gone.txt"
             (OSError "[Errno 2] No such file or directory"))) (log w').
Proof.
  destruct (extraction_failure_is_recovered Sample.os) as [H1 H2]. split.
  - apply (H1 "/data" "gone.txt" Sample.fresh
              (OSError "[Errno 2] No such file or directory")
              (discover Sample.fresh)).
    reflexivity.
  - destruct (H2 Sample.tree Sample.fresh) as (ys & w' & Hrun & _ & _ & _ & Hat).
    exists ys, w'. split; [exact Hrun|].
    apply (Hat 6%nat "/data/gone.txt" _ Sample.fresh); reflexivity.
Defined.

(** C9. A failing extraction writes nothing: when [_extract_metadata]
    raises, for whatever reason, the scanner and the log are as they
    were, so the extension index, the large-file list and the duplicate
    index are, and they still are after the round of the loop that
    handles the exception. *)
Theorem extraction_failure_is_atomic
        (os : OS) (p : string) (w : World) (e : Exception) (w1 : World) :
  _extract_metadata os p w = (Raise e, w1) ->
  w1 = w /\
  extension_count (self w1) = extension_count (self w) /\
  large_files (self w1) = large_files (self w) /\
  duplicates (self w1) = duplicates (self w) /\
  forall root filename w0,
    p = posixpath.join root filename ->
    w = discover w0 ->
    extension_count (self (snd (scan_file os root filename w0))) =
      extension_count (self w0) /\
    large_files (self (snd (scan_file os root filename w0))) =
      large_files (self w0) /\
    duplicates (self (snd (scan_file os root filename w0))) =
      duplicates (self w0).
Proof.
  intros H. rewrite _extract_metadata_outcome in H.
  destruct (outcome os p) as [r|q e'] eqn:E; [discriminate|].
  injection H as _ <-. repeat split; subst; rewrite scan_file_outcome, E;
    reflexivity.
Qed.

Lemma extraction_failure_is_atomic_witness :
  let w0 := snd (scan_file Sample.os "/data" "a.txt" Sample.fresh) in
  _extract_metadata Sample.os "/data/sub/stale.txt" (discover w0) =
    (Raise (OSError "[Errno 2] No such file or directory"), discover w0) /\
  extension_count (self (snd (scan_file Sample.os "/data/sub" "stale.txt" w0))) =
    extension_count (self w0) /\
  large_files (self (snd (scan_file Sample.os "/data/sub" "stale.txt" w0))) =
    large_files (self w0) /\
  duplicates (self (snd (scan_file Sample.os "/data/sub" "stale.txt" w0))) =
    duplicates (self w0).
Proof.
  intros w0.
  assert (H : _extract_metadata Sample.os "/data/sub/stale.txt" (discover w0) =
              (Raise (OSError "[Errno 2] No such file or directory"), discover w0))
    by reflexivity.
  split; [exact H|].
  destruct (extraction_failure_is_atomic Sample.os _ _ _ _ H)
    as (_ & _ & _ & _ & Hround).
  apply Hround; reflexivity.
Defined.

(** ** Successful extractions *)

Lemma outcome_processed_intro (os : OS) (p : string) (sz : Z)
      (t : timestamp os) (dt : datetime) :
  name_has_fail p = false ->
  getsize os p = Ok sz ->
  getmtime os p = Ok t ->
  fromtimestamp os t = Ok dt ->
  outcome os p =
  Processed {| path := p;
               size := sz;
               extension := Str.or_else (snd (posixpath.splitext p)) no_ext;
               modified := strftime_Ymd_HMS dt |}.
Proof.
  intros Hn Hs Hm Hf. unfold outcome. now rewrite Hn, Hs, Hm, Hf.
Qed.

Lemma outcome_processed_inv (os : OS) (p : string) (r : FileRecord) :
  outcome os p = Processed r ->
  name_has_fail p = false /\
  exists (t : timestamp os) (dt : datetime),
    getsize os p = Ok (size r) /\
    getmtime os p = Ok t /\
    fromtimestamp os t = Ok dt /\
    path r = p /\
    extension r = Str.or_else (snd (posixpath.splitext p)) no_ext /\
    modified r = strftime_Ymd_HMS dt.
Proof.
  unfold outcome.
  destruct (name_has_fail p); [discriminate|].
  destruct (getsize os p) as [sz|]; [|discriminate].
  destruct (getmtime os p) as [t|]; [|discriminate].
  destruct (fromtimestamp os t) as [dt|] eqn:Hf; [|discriminate].
  intros [= <-]. split; [reflexivity|]. exists t, dt. simpl.
  repeat split; assumption.
Qed.

Lemma extract_ok_inv (os : OS) (p : string) (w : World)
      (r : FileRecord) (w' : World) :
  _extract_metadata os p w = (Ok r, w') ->
  outcome os p = Processed r /\ w' = record_file r w.
Proof.
  rewrite _extract_metadata_outcome.
  destruct (outcome os p); [|discriminate]. intros [= <- <-]. auto.
Qed.

Lemma gtb_lt (a b : Z) : (a >? b) = true <-> b < a.
Proof. rewrite Z.gtb_ltb. apply Z.ltb_lt. Qed.

Lemma gtb_ge (a b : Z) : (a >? b) = false <-> a <= b.
Proof. rewrite Z.gtb_ltb. apply Z.ltb_ge. Qed.

(** C7. A file of size zero whose name does not contain "fail" and whose
    timestamp can be read is processed: the round of the loop yields its
    record, logs the zero-byte warning and nothing else, adds one to
    [total_processed] and not to [total_failed], counts its extension,
    lists its path under its base name, and leaves the large-file list
    alone, whatever the threshold. *)
Theorem zero_byte_file_is_processed
        (os : OS) (root filename : string) (w : World)
        (t : timestamp os) (dt : datetime) :
  let p := posixpath.join root filename in
  name_has_fail p = false ->
  getsize os p = Ok 0 ->
  getmtime os p = Ok t ->
  fromtimestamp os t = Ok dt ->
  exists r w',
    scan_file os root filename w = (Ok (Some r), w') /\
    path r = p /\ size r = 0 /\
    log w' = log w ++ [mkLogRecord WARNING (MsgZeroByte p)] /\
    total_processed (self w') = total_processed (self w) + 1 /\
    total_failed (self w') = total_failed (self w) /\
    Dict.get (extension_count (self w')) (extension r) =
      Some (count_of (extension_count (self w)) (extension r) + 1) /\
    Dict.get (duplicates (self w')) (posixpath.basename p) =
      Some (paths_of (duplicates (self w)) (posixpath.basename p) ++ [p]) /\
    large_files (self w') = large_files (self w).
Proof.
  intros p Hn Hs Hm Hf.
  pose proof (outcome_processed_intro os p 0 t dt Hn Hs Hm Hf) as Ho.
  eexists. eexists. split.
  { rewrite scan_file_outcome. fold p. rewrite Ho. reflexivity. }
  fold p.
  rewrite apply_outcome_log, apply_outcome_processed, apply_outcome_failed,
    apply_outcome_extension_count, apply_outcome_duplicates,
    apply_outcome_large_files.
  cbn [path size extension is_large Z.eqb negb andb].
  rewrite !get_set_eq. repeat split. lia.
Qed.

Lemma zero_byte_file_is_processed_witness :
  exists r w',
    scan_file Sample.os "/data" "empty.dat" Sample.fresh = (Ok (Some r), w') /\
    path r = "/data/empty.dat" /\ size r = 0 /\
    log w' = [mkLogRecord WARNING (MsgZeroByte "/data/empty.dat")] /\
    total_processed (self w') = 1 /\
    total_failed (self w') = 0 /\
    Dict.get (extension_count (self w')) (extension r) = Some 1 /\
    Dict.get (duplicates (self w')) "empty.dat" = Some ["/data/empty.dat"] /\
    large_files (self w') = [].
Proof.
  apply (zero_byte_file_is_processed Sample.os "/data" "empty.dat" Sample.fresh
           1705309507 (mkDatetime 2024 1 15 9 5 7 250000));
    reflexivity.
Defined.

Lemma scan_threshold (os : OS) (w : World) :
  large_file_threshold_bytes (self (snd (scan os w))) =
  large_file_threshold_bytes (self w).
Proof.
  rewrite scan_run. cbv zeta.
  destruct (_ =? _); simpl; apply traversal_threshold.
Qed.

(** C4. [__init__] converts the threshold from megabytes to bytes, and no
    scan changes it.  A processed file is put on the large-file list only
    when its size is strictly greater than the threshold: a file of
    exactly the threshold is not added and gets no large-file warning; a
    file one byte above a threshold of [mb] megabytes is added, with the
    warning that names [mb], the path and the size. *)
Theorem large_file_classification (os : OS) :
  (forall root mb,
     large_file_threshold_bytes (init root mb) = mb * 1024 * 1024) /\
  (forall w,
     large_file_threshold_bytes (self (snd (scan os w))) =
     large_file_threshold_bytes (self w)) /\
  (forall p w r w',
     _extract_metadata os p w = (Ok r, w') ->
     getsize os p = Ok (size r) /\
     (size r <= large_file_threshold_bytes (self w) ->
      large_files (self w') = large_files (self w)) /\
     (size r = large_file_threshold_bytes (self w) ->
      large_files (self w') = large_files (self w) /\
      log w' = log w ++ (if size r =? 0
                         then [mkLogRecord WARNING (MsgZeroByte p)] else [])) /\
     (forall mb,
        large_file_threshold_bytes (self w) = mb * 1024 * 1024 ->
        size r = large_file_threshold_bytes (self w) + 1 ->
        large_files (self w') = large_files (self w) ++ [p] /\
        log w' = log w ++ [mkLogRecord WARNING (MsgLargeFile mb p (size r))])).
Proof.
  split; [reflexivity|]. split; [apply scan_threshold|].
  intros p w r w' H. apply extract_ok_inv in H as [Ho ->].
  destruct (outcome_processed_inv _ _ _ Ho)
    as (_ & t & dt & Hsize & _ & _ & Hpath & _).
  rewrite record_file_self, record_file_log. cbn [large_files]. rewrite Hpath.
  split; [exact Hsize|]. split; [|split].
  - intros Hle. apply gtb_ge in Hle. rewrite Hle.
    now rewrite andb_false_r.
  - intros Heq.
    assert (Hle : (size r >? large_file_threshold_bytes (self w)) = false)
      by (apply gtb_ge; lia).
    rewrite Hle, andb_false_r. split; [reflexivity|].
    now destruct (size r =? 0).
  - intros mb Hmb Heq.
    assert (Hgt : (size r >? large_file_threshold_bytes (self w)) = true)
      by (apply gtb_lt; lia).
    assert (Hnz : (size r =? 0) = false) by (apply Z.eqb_neq; lia).
    rewrite Hgt, Hnz. cbn [negb andb]. split; [reflexivity|].
    rewrite Hmb.
    replace (mb * 1024 * 1024 / (1024 * 1024)) with mb; [reflexivity|].
    rewrite <- Z.mul_assoc. symmetry. apply Z.div_mul. lia.
Qed.

Lemma large_file_classification_witness :
  (large_files
     (self (snd (_extract_metadata Sample.os "/data/exact.bin" Sample.fresh))) = [] /\
   log (snd (_extract_metadata Sample.os "/data/exact.bin" Sample.fresh)) = []) /\
  (large_files
     (self (snd (_extract_metadata Sample.os "/data/big.bin" Sample.fresh))) =
     ["/data/big.bin"] /\
   log (snd (_extract_metadata Sample.os "/data/big.bin" Sample.fresh)) =
     [mkLogRecord WARNING (MsgLargeFile 10 "/data/big.bin" 10485761)]).
Proof.
  destruct (large_file_classification Sample.os) as (_ & _ & H).
  split.
  - destruct (H "/data/exact.bin" Sample.fresh
                (mkFileRecord "/data/exact.bin" 10485760 ".bin" "2024-01-15 09:05:07")
                (snd (_extract_metadata Sample.os "/data/exact.bin" Sample.fresh))
                eq_refl) as (_ & _ & Hexact & _).
    apply Hexact. reflexivity.
  - destruct (H "/data/big.bin" Sample.fresh
                (mkFileRecord "/data/big.bin" 10485761 ".bin" "2024-01-15 09:05:07")
                (snd (_extract_metadata Sample.os "/data/big.bin" Sample.fresh))
                eq_refl) as (_ & _ & _ & Hbig).
    apply (Hbig 10); reflexivity.
Defined.

(** ** The read-only operations *)

Lemma for_each_emit {A : Type} (body : A -> M unit) (emit : A -> list LogRecord) :
  (forall a w, body a w = (Ok tt, mkWorld (self w) (log w ++ emit a))) ->
  forall l w,
    for_each body l w = (Ok tt, mkWorld (self w) (log w ++ flat_map emit l)).
Proof.
  intros Hbody. induction l as [|a l IH]; intros w; simpl.
  - unfold ret. rewrite app_nil_r. now destruct w.
  - unfold bind. rewrite Hbody, IH. simpl. now rewrite <- app_assoc.
Qed.

Lemma flat_map_single {A B : Type} (f : A -> B) (l : list A) :
  flat_map (fun x => [f x]) l = map f l.
Proof. induction l as [|a l IH]; simpl; [reflexivity|now rewrite IH]. Qed.

Lemma report_duplicates_run (w : World) :
  report_duplicates w =
  (Ok tt,
   mkWorld (self w)
           (log w ++
            map (fun g => mkLogRecord INFO (MsgDuplicate (fst g) (snd g)))
                (filter more_than_one (Dict.items (duplicates (self w)))))).
Proof.
  unfold report_duplicates, bind, read_self.
  rewrite for_each_emit
    with (emit := fun g => if more_than_one g
                           then [mkLogRecord INFO (MsgDuplicate (fst g) (snd g))]
                           else []).
  - do 3 f_equal. unfold Dict.items.
    induction (duplicates (self w)) as [|g d IH]; simpl; [reflexivity|].
    destruct (more_than_one g); simpl; now rewrite IH.
  - intros [name paths] w0. unfold more_than_one. simpl.
    destruct (_ >? 1); [reflexivity|].
    unfold ret. rewrite app_nil_r. now destruct w0.
Qed.

Lemma report_summary_run (w : World) :
  report_summary w =
  (Ok tt,
   mkWorld (self w)
           (log w ++
            [mkLogRecord INFO (MsgDiscovered (total_discovered (self w)));
             mkLogRecord INFO (MsgProcessed (total_processed (self w)));
             mkLogRecord INFO (MsgFailedCount (total_failed (self w)))] ++
            map (fun x => mkLogRecord INFO (MsgExtension (fst x) (snd x)))
                (Dict.items (extension_count (self w))) ++
            [mkLogRecord INFO
               (MsgLargeCount (Z.of_nat (List.length (large_files (self w)))))])).
Proof.
  unfold report_summary, bind, read_self, logging. cbn [self log].
  rewrite for_each_emit
    with (emit := fun x => [mkLogRecord INFO (MsgExtension (fst x) (snd x))]).
  - cbn [self log]. rewrite flat_map_single, <- !app_assoc. reflexivity.
  - now intros [ext count] w0.
Qed.

Lemma run_op_self (op : ReadOnlyOp) (w : World) : self (run_op op w) = self w.
Proof.
  destruct op; simpl.
  - rewrite get_summary_run. now destruct (_ =? _).
  - now rewrite report_summary_run.
  - now rewrite report_duplicates_run.
Qed.

Lemma run_ops_self (ops : list ReadOnlyOp) : forall w, self (run_ops ops w) = self w.
Proof.
  unfold run_ops. induction ops as [|op ops IH]; intros w; simpl; [reflexivity|].
  now rewrite IH, run_op_self.
Qed.

Lemma get_summary_self_only (w1 w2 : World) :
  self w1 = self w2 -> fst (get_summary w1) = fst (get_summary w2).
Proof.
  intros H. rewrite !get_summary_run, H. now destruct (_ =? _).
Qed.

(** C8. [get_summary], [report_summary] and [report_duplicates] leave
    the scanner as it is (the counters and the three indices with it),
    one call or any sequence of calls; the two reports only add log
    records, [get_summary] changes nothing at all.  Hence [get_summary]
    called twice in a row, or before and after any sequence of these
    operations, returns the same result. *)
Theorem read_only_operations :
  (forall w, snd (get_summary w) = w) /\
  (forall w, self (snd (report_summary w)) = self w) /\
  (forall w, self (snd (report_duplicates w)) = self w) /\
  (forall ops w,
     self (run_ops ops w) = self w /\
     total_discovered (self (run_ops ops w)) = total_discovered (self w) /\
     total_processed (self (run_ops ops w)) = total_processed (self w) /\
     total_failed (self (run_ops ops w)) = total_failed (self w) /\
     extension_count (self (run_ops ops w)) = extension_count (self w) /\
     large_files (self (run_ops ops w)) = large_files (self w) /\
     duplicates (self (run_ops ops w)) = duplicates (self w)) /\
  (forall w, get_summary (snd (get_summary w)) = get_summary w) /\
  (forall ops w, fst (get_summary (run_ops ops w)) = fst (get_summary w)).
Proof.
  assert (Hget : forall w, snd (get_summary w) = w).
  { intros w. rewrite get_summary_run. now destruct (_ =? _). }
  split; [exact Hget|].
  split; [intros w; now rewrite report_summary_run|].
  split; [intros w; now rewrite report_duplicates_run|].
  split; [|split].
  - intros ops w. rewrite run_ops_self. repeat split.
  - intros w. now rewrite Hget.
  - intros ops w. apply get_summary_self_only, run_ops_self.
Qed.

(** ** The totals of the aggregates *)

Lemma totals_ok_init (root : string) (mb : Z) : totals_ok (init root mb).
Proof. unfold totals_ok. simpl. repeat split. lia. Qed.

Lemma traversal_totals_ok (outs : list Outcome) (w : World) :
  totals_ok (self w) -> totals_ok (self (fold_left apply_outcome outs w)).
Proof.
  unfold totals_ok. intros (He & Hd & Hl).
  rewrite traversal_sum_counts, traversal_count_paths, traversal_large_files,
    traversal_processed.
  repeat split; try lia.
  rewrite length_app, length_map.
  pose proof (filter_length_le (is_large (large_file_threshold_bytes (self w)))
                               (processed_records (map yield_of outs))).
  lia.
Qed.

(** C10. After a completed scan of a new scanner, and after every later
    scan of the same scanner, the counts of the extension index sum to
    [total_processed], the duplicate index lists [total_processed] paths
    in all, and the large-file list is no longer than [total_processed]:
    a successful extraction adds one to one count, appends one path to
    one sequence of the duplicate index, and appends at most one path to
    the large-file list. *)
Theorem aggregate_totals (os : OS) :
  (forall root mb lg,
     exists ys w',
       scan os (mkWorld (init root mb) lg) = (Ok ys, w') /\
       sum_counts (extension_count (self w')) = total_processed (self w') /\
       count_paths (duplicates (self w')) = total_processed (self w') /\
       Z.of_nat (List.length (large_files (self w'))) <= total_processed (self w') /\
       total_processed (self w') = Z.of_nat (List.length (processed_records ys))) /\
  (forall w,
     counters_ok (self w) -> totals_ok (self w) ->
     exists ys w',
       scan os w = (Ok ys, w') /\ counters_ok (self w') /\ totals_ok (self w')) /\
  (forall p w r w',
     _extract_metadata os p w = (Ok r, w') ->
     sum_counts (extension_count (self w')) =
       sum_counts (extension_count (self w)) + 1 /\
     count_of (extension_count (self w')) (extension r) =
       count_of (extension_count (self w)) (extension r) + 1 /\
     count_paths (duplicates (self w')) = count_paths (duplicates (self w)) + 1 /\
     (large_files (self w') = large_files (self w) \/
      large_files (self w') = large_files (self w) ++ [p])).
Proof.
  assert (Hinv : forall w,
     counters_ok (self w) -> totals_ok (self w) ->
     exists ys w',
       scan os w = (Ok ys, w') /\ counters_ok (self w') /\ totals_ok (self w')).
  { intros w Hc Ht. eexists. eexists. split; [now apply scan_run_ok|].
    split; [now apply traversal_counters_ok|now apply traversal_totals_ok]. }
  split; [|split; [exact Hinv|]].
  - intros root mb lg.
    set (w := mkWorld (init root mb) lg).
    eexists. eexists. split; [apply scan_run_ok, counters_ok_init|].
    destruct (traversal_totals_ok (scan_outcomes os w) w (totals_ok_init root mb))
      as (He & Hd & Hl).
    repeat split; try assumption.
    rewrite traversal_processed. simpl. lia.
  - intros p w r w' H. apply extract_ok_inv in H as [Ho ->].
    destruct (outcome_processed_path _ _ _ Ho) as [Hpath _].
    rewrite record_file_self.
    cbn [extension_count duplicates large_files].
    rewrite sum_counts_incr, count_paths_append, count_of_set, String.eqb_refl,
      Hpath.
    repeat split.
    destruct (andb _ _); auto.
Qed.

Lemma aggregate_totals_witness :
  (exists ys w',
     scan Sample.os Sample.fresh = (Ok ys, w') /\
     counters_ok (self w') /\ totals_ok (self w')) /\
  sum_counts (extension_count
                (self (snd (_extract_metadata Sample.os "/data/big.bin" Sample.fresh)))) = 1 /\
  count_paths (duplicates
                 (self (snd (_extract_metadata Sample.os "/data/big.bin" Sample.fresh)))) = 1.
Proof.
  destruct (aggregate_totals Sample.os) as (_ & H2 & H3).
  split.
  - apply H2; [reflexivity|]. apply totals_ok_init.
  - destruct (H3 "/data/big.bin" Sample.fresh
                 (mkFileRecord "/data/big.bin" 10485761 ".bin" "2024-01-15 09:05:07")
                 (snd (_extract_metadata Sample.os "/data/big.bin" Sample.fresh))
                 eq_refl) as (Hs & _ & Hp & _).
    split; [exact Hs|exact Hp].
Defined.

(** ** The duplicate index and its reports *)

Lemma write_duplicates_run (sm : Summary) :
  ReportWriter.write_duplicates sm =
  ("## Duplicate File Names" +++ ReportWriter.nl +++ ReportWriter.nl) ::
  match filter more_than_one (Dict.items (summary_duplicates sm)) with
  | [] => ["_No duplicates found._" +++ ReportWriter.nl]
  | groups => flat_map ReportWriter.write_group groups
  end.
Proof.
  unfold ReportWriter.write_duplicates, Dict.comprehension_if, Dict.items.
  change (fun kv : string * list string =>
            Z.of_nat (List.length (snd kv)) >? 1) with more_than_one.
  now destruct (filter more_than_one (summary_duplicates sm)).
Qed.

(** C6. A successful extraction appends the full path to the sequence
    the duplicate index holds for the base name, creating the key when
    the name is new, and touches no other key.  So after the scan of a
    new scanner the index has one key for every base name borne by a
    processed file, a name borne by one file included, and the key holds
    the full paths of all the processed files of that name, in the order
    they were found.  [get_summary] hands out that index whole.  Both
    reports show the groups of more than one path and no others, each
    under its name with all its paths. *)
Theorem duplicate_index_and_report (os : OS) :
  (forall p w r w',
     _extract_metadata os p w = (Ok r, w') ->
     Dict.get (duplicates (self w')) (posixpath.basename p) =
       Some (paths_of (duplicates (self w)) (posixpath.basename p) ++ [p]) /\
     forall name,
       name <> posixpath.basename p ->
       Dict.get (duplicates (self w')) name = Dict.get (duplicates (self w)) name) /\
  (forall root mb lg,
     exists ys w',
       scan os (mkWorld (init root mb) lg) = (Ok ys, w') /\
       NoDup (Dict.keys (duplicates (self w'))) /\
       forall name,
         Dict.get (duplicates (self w')) name =
         match paths_named name (processed_records ys) with
         | [] => None
         | l => Some l
         end) /\
  (forall w sm,
     get_summary w = (Ok sm, w) -> summary_duplicates sm = duplicates (self w)) /\
  (forall w,
     report_duplicates w =
     (Ok tt,
      mkWorld (self w)
              (log w ++
               map (fun g => mkLogRecord INFO (MsgDuplicate (fst g) (snd g)))
                   (filter more_than_one (Dict.items (duplicates (self w))))))) /\
  (forall sm,
     ReportWriter.write_duplicates sm =
     ("## Duplicate File Names" +++ ReportWriter.nl +++ ReportWriter.nl) ::
     match filter more_than_one (Dict.items (summary_duplicates sm)) with
     | [] => ["_No duplicates found._" +++ ReportWriter.nl]
     | groups => flat_map ReportWriter.write_group groups
     end) /\
  (forall name paths,
     ReportWriter.write_group (name, paths) =
     ("### `" +++ name +++ "`" +++ ReportWriter.nl) ::
     map (fun p => "- `" +++ p +++ "`" +++ ReportWriter.nl) paths ++
     [ReportWriter.nl]).
Proof.
  split; [|split; [|split; [|split; [|split]]]].
  - intros p w r w' H. apply extract_ok_inv in H as [Ho ->].
    destruct (outcome_processed_path _ _ _ Ho) as [Hpath _].
    rewrite record_file_self. cbn [duplicates]. rewrite Hpath. split.
    + apply get_set_eq.
    + intros name Hne. now apply get_set_ne.
  - intros root mb lg. set (w := mkWorld (init root mb) lg).
    eexists. eexists. split; [apply scan_run_ok, counters_ok_init|].
    split.
    + apply traversal_keys_NoDup; constructor.
    + intros name. rewrite traversal_duplicates_key.
      now destruct (paths_named name _).
  - intros w sm H. rewrite get_summary_run in H.
    destruct (_ =? _); [|discriminate]. now injection H as <-.
  - apply report_duplicates_run.
  - apply write_duplicates_run.
  - reflexivity.
Qed.

Lemma duplicate_index_and_report_witness :
  (Dict.get (duplicates
               (self (snd (_extract_metadata Sample.os "/data/README" Sample.fresh))))
            "README" = Some ["/data/README"] /\
   Dict.get (duplicates
               (self (snd (_extract_metadata Sample.os "/data/README" Sample.fresh))))
            "a.txt" = None) /\
  (summary_duplicates
     {| summary_total_discovered := 0; summary_total_processed := 0;
        summary_total_failed := 0; summary_extension_count := [];
        summary_large_files := []; summary_duplicates := [] |} = []).
Proof.
  destruct (duplicate_index_and_report Sample.os) as (H1 & _ & H3 & _).
  split.
  - destruct (H1 "/data/README" Sample.fresh
                 (mkFileRecord "/data/README" 64 "<no-ext>" "2024-01-15 09:05:07")
                 (snd (_extract_metadata Sample.os "/data/README" Sample.fresh))
                 eq_refl) as [Hget Hother].
    split; [exact Hget|].
    apply (Hother "a.txt"). vm_compute. discriminate.
  - apply (H3 Sample.fresh). reflexivity.
Defined.

(** ** Strings *)

Lemma append_assoc (a b c : string) : (a +++ b) +++ c = a +++ b +++ c.
Proof. induction a as [|x a IH]; simpl; [reflexivity|now rewrite IH]. Qed.

Lemma append_length (a b : string) :
  String.length (a +++ b) = (String.length a + String.length b)%nat.
Proof. induction a as [|x a IH]; simpl; [reflexivity|now rewrite IH]. Qed.

Lemma lower_append (a b : string) :
  Str.lower (a +++ b) = Str.lower a +++ Str.lower b.
Proof. induction a as [|x a IH]; simpl; [reflexivity|now rewrite IH]. Qed.

Lemma lower_append_inv (s a b : string) :
  Str.lower s = a +++ b ->
  exists s1 s2, s = s1 +++ s2 /\ Str.lower s1 = a /\ Str.lower s2 = b.
Proof.
  revert s. induction a as [|x a IH]; intros s H.
  - exists EmptyString, s. auto.
  - destruct s as [|c s]; simpl in H; [discriminate|].
    injection H as Hc Hs. destruct (IH _ Hs) as (s1 & s2 & -> & H1 & H2).
    exists (String c s1), s2. simpl. now rewrite Hc, H1.
Qed.

Lemma prefix_append (a b : string) : String.prefix a (a +++ b) = true.
Proof.
  induction a as [|x a IH]; simpl; [now destruct b|].
  destruct (ascii_dec x x); [assumption|congruence].
Qed.

Lemma prefix_inv (a s : string) :
  String.prefix a s = true -> exists b, s = a +++ b.
Proof.
  revert s. induction a as [|x a IH]; intros s H.
  - exists s. reflexivity.
  - destruct s as [|c s]; simpl in H; [discriminate|].
    destruct (ascii_dec x c) as [->|]; [|discriminate].
    destruct (IH _ H) as [b ->]. now exists b.
Qed.

(** [sub in s] holds exactly when [s] is [pre + sub + post] *)
Lemma contains_iff (sub s : string) :
  Str.contains sub s = true <-> exists pre post, s = pre +++ sub +++ post.
Proof.
  split.
  - induction s as [|c s IH]; cbn [Str.contains]; intros H.
    + rewrite orb_false_r in H. apply prefix_inv in H as [b Hb].
      exists EmptyString, b. exact Hb.
    + apply orb_true_iff in H as [H|H].
      * apply prefix_inv in H as [b Hb]. exists EmptyString, b. exact Hb.
      * destruct (IH H) as (pre & post & ->). now exists (String c pre), post.
  - intros (pre & post & ->). induction pre as [|c pre IH].
    + cbn [String.append].
      destruct (sub +++ post) eqn:E; cbn [Str.contains];
        rewrite <- E, prefix_append; reflexivity.
    + cbn [String.append Str.contains]. rewrite IH. apply orb_true_r.
Qed.

(** the test of [_extract_metadata] holds exactly when the base name
    contains, in whatever case, the word "fail" *)
Lemma name_has_fail_iff (p : string) :
  name_has_fail p = true <->
  exists pre word post,
    posixpath.basename p = pre +++ word +++ post /\ Str.lower word = "fail".
Proof.
  unfold name_has_fail. rewrite contains_iff. split.
  - intros (pre' & post' & H).
    apply lower_append_inv in H as (pre & rest & Hb & _ & Hrest).
    apply lower_append_inv in Hrest as (word & post & -> & Hword & _).
    now exists pre, word, post.
  - intros (pre & word & post & Hb & Hword).
    exists (Str.lower pre), (Str.lower post).
    now rewrite Hb, !lower_append, Hword.
Qed.

(** ** The simulated failure *)

Lemma In_processed_records (ys : list (option FileRecord)) (r : FileRecord) :
  In r (processed_records ys) <-> In (Some r) ys.
Proof.
  induction ys as [|[r'|] ys IH]; simpl.
  - tauto.
  - rewrite IH. split; intros [H|H]; auto; left; congruence.
  - rewrite IH. split; [auto|]. intros [H|H]; [discriminate|assumption].
Qed.

Lemma name_has_fail_basename (p q : string) :
  posixpath.basename p = posixpath.basename q ->
  name_has_fail p = name_has_fail q.
Proof. unfold name_has_fail. now intros ->. Qed.

(** no record of a traversal has the path, or the base name, of a file
    whose name contains "fail" *)
Lemma fail_name_not_processed (os : OS) (paths : list string) (p : string) :
  name_has_fail p = true ->
  forall r,
    In r (processed_records (map yield_of (map (outcome os) paths))) ->
    path r <> p /\ posixpath.basename (path r) <> posixpath.basename p.
Proof.
  intros Hp r Hr.
  destruct (processed_records_origin _ _ _ Hr) as (_ & _ & Hf).
  split; intros Heq.
  - rewrite Heq in Hf. congruence.
  - apply name_has_fail_basename in Heq. congruence.
Qed.

Lemma fail_name_not_listed (os : OS) (paths : list string) (p name : string) :
  name_has_fail p = true ->
  ~ In p (paths_named name
            (processed_records (map yield_of (map (outcome os) paths)))).
Proof.
  intros Hp Hin. unfold paths_named in Hin.
  apply filter_In in Hin as [Hin _].
  apply in_map_iff in Hin as (r & Hpath & Hr).
  now destruct (fail_name_not_processed os paths p Hp r Hr).
Qed.

(** C3. For a file whose base name contains the word "fail", in
    whatever case, [_extract_metadata] raises the simulated failure at
    once and writes nothing; the round of the loop counts the file as
    failed and not as processed, and yields [None].  After the scan of a
    new scanner no yielded record bears its path, its path is neither on
    the large-file list nor in any sequence of the duplicate index, its
    base name is not a key of that index, and the extension index counts
    the yielded records only. *)
Theorem simulated_failure (os : OS) (p : string) :
  (exists pre word post,
      posixpath.basename p = pre +++ word +++ post /\ Str.lower word = "fail") ->
  (forall w,
     _extract_metadata os p w = (Raise (RuntimeError simulated_failure_msg), w)) /\
  (forall root filename w,
     posixpath.join root filename = p ->
     scan_file os root filename w =
       (Ok None,
        mkWorld (set_total_failed (total_failed (self w) + 1)
                   (set_total_discovered (total_discovered (self w) + 1) (self w)))
                (log w ++ [mkLogRecord ERROR
                             (MsgFailed p (RuntimeError simulated_failure_msg))]))) /\
  (forall root mb lg,
     exists ys w',
       scan os (mkWorld (init root mb) lg) = (Ok ys, w') /\
       (forall r, In (Some r) ys -> path r <> p) /\
       total_processed (self w') = Z.of_nat (List.length (processed_records ys)) /\
       ~ In p (large_files (self w')) /\
       Dict.get (duplicates (self w')) (posixpath.basename p) = None /\
       (forall name l,
          Dict.get (duplicates (self w')) name = Some l -> ~ In p l) /\
       (forall ext,
          count_of (extension_count (self w')) ext =
          count_ext ext (processed_records ys))).
Proof.
  intros Hname. apply name_has_fail_iff in Hname.
  assert (Ho : outcome os p = Failed p (RuntimeError simulated_failure_msg))
    by (unfold outcome; now rewrite Hname).
  split; [|split].
  - intros w. now rewrite _extract_metadata_outcome, Ho.
  - intros root filename w <-. now rewrite scan_file_outcome, Ho.
  - intros root mb lg. set (w := mkWorld (init root mb) lg).
    eexists. eexists. split; [apply scan_run_ok, counters_ok_init|].
    unfold scan_outcomes.
    set (paths := walk_paths (os_walk os (root_path (self w)))).
    split; [|split; [|split; [|split; [|split]]]].
    + intros r Hr. apply In_processed_records in Hr.
      now destruct (fail_name_not_processed os paths p Hname r Hr).
    + rewrite traversal_processed. simpl. lia.
    + rewrite traversal_large_files. simpl. intros Hin.
      apply in_map_iff in Hin as (r & Hpath & Hr).
      apply filter_In in Hr as [Hr _].
      now destruct (fail_name_not_processed os paths p Hname r Hr).
    + rewrite traversal_duplicates_key.
      destruct (paths_named _ _) as [|q l] eqn:E; [reflexivity|].
      exfalso.
      assert (Hq : In q (paths_named (posixpath.basename p)
                (processed_records (map yield_of (map (outcome os) paths)))))
        by (rewrite E; now left).
      unfold paths_named in Hq. apply filter_In in Hq as [Hq Hb].
      apply in_map_iff in Hq as (r & Hpath & Hr). subst q.
      apply String.eqb_eq in Hb.
      now destruct (fail_name_not_processed os paths p Hname r Hr).
    + intros name l Hget Hin. rewrite traversal_duplicates_key in Hget.
      assert (Hl : l = paths_named name
                (processed_records (map yield_of (map (outcome os) paths)))).
      { destruct (paths_named name _); [discriminate|].
        injection Hget as <-. reflexivity. }
      subst l. now apply (fail_name_not_listed os paths p name Hname).
    + intros ext. rewrite traversal_count_of. simpl. unfold count_of. simpl. lia.
Qed.

Lemma simulated_failure_witness :
  (forall w,
     _extract_metadata Sample.os "/data/sub/Not_A_FAILURE.md" w =
     (Raise (RuntimeError simulated_failure_msg), w)) /\
  scan_file Sample.os "/data/sub" "Not_A_FAILURE.md" Sample.fresh =
    (Ok None,
     mkWorld (set_total_failed 1 (set_total_discovered 1 (init "/data" 10)))
             [mkLogRecord ERROR
                (MsgFailed "/data/sub/Not_A_FAILURE.md"
                           (RuntimeError simulated_failure_msg))]).
Proof.
  destruct (simulated_failure Sample.os "/data/sub/Not_A_FAILURE.md") as (H1 & H2 & _).
  - exists "Not_A_", "FAIL", "URE.md". split; reflexivity.
  - split; [exact H1|].
    apply (H2 "/data/sub" "Not_A_FAILURE.md" Sample.fresh). reflexivity.
Defined.

(** ** [rfind], slices and [posixpath] *)

Lemma len_append (a b : string) : Str.len (a +++ b) = Str.len a + Str.len b.
Proof. unfold Str.len. rewrite append_length. lia. Qed.

Lemma rfind_from_append (c : ascii) (s1 s2 : string) : forall i last,
  Str.rfind_from c (s1 +++ s2) i last =
  Str.rfind_from c s2 (i + Str.len s1) (Str.rfind_from c s1 i last).
Proof.
  induction s1 as [|a s1 IH]; intros i last; cbn [String.append Str.rfind_from].
  - unfold Str.len. simpl. now rewrite Z.add_0_r.
  - rewrite IH. f_equal. unfold Str.len. cbn [String.length]. lia.
Qed.

Lemma rfind_from_absent (c : ascii) (s : string) : forall i last,
  has_char c s = false -> Str.rfind_from c s i last = last.
Proof.
  induction s as [|a s IH]; intros i last H; cbn [Str.rfind_from]; [reflexivity|].
  cbn [has_char] in H. apply orb_false_iff in H as [Ha Hs].
  rewrite Ha. now apply IH.
Qed.

Lemma rfind_from_bound (c : ascii) (s : string) : forall i last,
  last < i -> Str.rfind_from c s i last < i + Str.len s.
Proof.
  induction s as [|a s IH]; intros i last H; cbn [Str.rfind_from].
  - unfold Str.len. simpl. lia.
  - replace (i + Str.len (String a s)) with (i + 1 + Str.len s)
      by (unfold Str.len; cbn [String.length]; lia).
    apply IH. destruct (Ascii.eqb a c); lia.
Qed.

Lemma rfind_last (c : ascii) (s1 s2 : string) :
  has_char c s2 = false -> Str.rfind (s1 +++ String c s2) c = Str.len s1.
Proof.
  intros H. unfold Str.rfind. rewrite rfind_from_append.
  cbn [Str.rfind_from]. rewrite Ascii.eqb_refl.
  rewrite rfind_from_absent by assumption. lia.
Qed.

Lemma rfind_absent (c : ascii) (s : string) :
  has_char c s = false -> Str.rfind s c = -1.
Proof. intros H. unfold Str.rfind. now apply rfind_from_absent. Qed.

Lemma last_occurrence (c : ascii) (s : string) :
  has_char c s = true ->
  exists s1 s2, s = s1 +++ String c s2 /\ has_char c s2 = false.
Proof.
  induction s as [|a s IH]; cbn [has_char]; [discriminate|].
  intros H. destruct (has_char c s) eqn:Hs.
  - destruct (IH eq_refl) as (s1 & s2 & -> & H2).
    now exists (String a s1), s2.
  - rewrite orb_false_r in H. apply Ascii.eqb_eq in H. subst a.
    now exists EmptyString, s.
Qed.

Lemma drop_append (s1 s2 : string) :
  Str.drop (String.length s1) (s1 +++ s2) = s2.
Proof. induction s1 as [|a s1 IH]; simpl; [now destruct s2|assumption]. Qed.

Lemma slice_from_append (s1 s2 : string) :
  Str.slice_from (s1 +++ s2) (Str.len s1) = s2.
Proof.
  unfold Str.slice_from, Str.len. rewrite Nat2Z.id. apply drop_append.
Qed.

(** a path is a directory part, empty or ending in the separator,
    followed by its base name, which holds no separator *)
Lemma basename_decompose (p : string) :
  exists dir,
    p = dir +++ posixpath.basename p /\
    Str.rfind p posixpath.sep = Str.len dir - 1 /\
    has_char posixpath.sep (posixpath.basename p) = false.
Proof.
  unfold posixpath.basename.
  destruct (has_char posixpath.sep p) eqn:H.
  - destruct (last_occurrence _ _ H) as (s1 & s2 & -> & H2).
    rewrite rfind_last by assumption.
    exists (s1 +++ String posixpath.sep EmptyString).
    assert (E : s1 +++ String posixpath.sep s2 =
                (s1 +++ String posixpath.sep EmptyString) +++ s2)
      by now rewrite append_assoc.
    assert (L : Str.len (s1 +++ String posixpath.sep EmptyString) = Str.len s1 + 1)
      by (rewrite len_append; reflexivity).
    rewrite <- L. rewrite E at 2 3. rewrite slice_from_append.
    repeat split; [exact E|lia|exact H2].
  - rewrite rfind_absent by assumption. exists EmptyString.
    change (Str.slice_from p (-1 + 1)) with (Str.drop 0 p).
    assert (D : Str.drop 0 p = p) by now destruct p.
    rewrite D. repeat split. exact H.
Qed.

Lemma skip_leading_dots_run (rest : string) (dot : Z) (stem : string) :
  forall pre,
    posixpath.skip_leading_dots (pre +++ stem +++ rest) dot (Str.len pre)
                                (String.length stem) =
    if all_dots stem then None
    else Some (Str.slice_to (pre +++ stem +++ rest) dot,
               Str.slice_from (pre +++ stem +++ rest) dot).
Proof.
  induction stem as [|a stem IH]; intros pre; [reflexivity|].
  cbn [String.length posixpath.skip_leading_dots all_dots].
  assert (Hslice : Str.slice (pre +++ String a stem +++ rest)
                             (Str.len pre) (Str.len pre + 1) =
                   String a EmptyString).
  { unfold Str.slice.
    replace (Str.len pre + 1 - Str.len pre) with 1 by lia.
    unfold Str.len. rewrite Nat2Z.id, drop_append. reflexivity. }
  rewrite Hslice.
  assert (Heqb : String.eqb (String a EmptyString)
                            (String posixpath.extsep EmptyString) =
                 Ascii.eqb a posixpath.extsep).
  { cbn [String.eqb]. now destruct (Ascii.eqb a posixpath.extsep). }
  rewrite Heqb.
  destruct (Ascii.eqb a posixpath.extsep); cbn [negb andb]; [|reflexivity].
  specialize (IH (pre +++ String a EmptyString)).
  rewrite len_append in IH.
  change (Str.len (String a EmptyString)) with 1 in IH.
  rewrite append_assoc in IH. exact IH.
Qed.

Section Splitext.

Variables (dir b : string).
Hypothesis Hsep : Str.rfind (dir +++ b) posixpath.sep = Str.len dir - 1.

Lemma splitext_no_dot :
  has_char posixpath.extsep b = false ->
  snd (posixpath.splitext (dir +++ b)) = EmptyString.
Proof.
  intros Hb. unfold posixpath.splitext. rewrite Hsep.
  assert (Hdot : Str.rfind (dir +++ b) posixpath.extsep < Str.len dir).
  { unfold Str.rfind. rewrite rfind_from_append.
    rewrite rfind_from_absent by assumption.
    apply (rfind_from_bound posixpath.extsep dir 0 (-1)). lia. }
  assert (Hgt : (Str.rfind (dir +++ b) posixpath.extsep >? Str.len dir - 1) = false)
    by (apply gtb_ge; lia).
  rewrite Hgt. reflexivity.
Qed.

Lemma splitext_last_dot (stem suf : string) :
  b = stem +++ String posixpath.extsep suf ->
  has_char posixpath.extsep suf = false ->
  snd (posixpath.splitext (dir +++ b)) =
  if all_dots stem then EmptyString else String posixpath.extsep suf.
Proof.
  intros Hb Hsuf. unfold posixpath.splitext. rewrite Hsep.
  assert (Hdot : Str.rfind (dir +++ b) posixpath.extsep =
                 Str.len dir + Str.len stem).
  { rewrite Hb, <- append_assoc, rfind_last by assumption.
    apply len_append. }
  rewrite Hdot.
  assert (Hgt : (Str.len dir + Str.len stem >? Str.len dir - 1) = true)
    by (apply gtb_lt; unfold Str.len; lia).
  rewrite Hgt.
  replace (Str.len dir - 1 + 1) with (Str.len dir) by lia.
  replace (Z.to_nat (Str.len dir + Str.len stem - Str.len dir))
    with (String.length stem) by (unfold Str.len; lia).
  rewrite Hb, skip_leading_dots_run.
  destruct (all_dots stem); [reflexivity|].
  cbn [snd]. rewrite <- append_assoc, <- len_append.
  apply slice_from_append.
Qed.

End Splitext.

(** ** [strftime] *)

Lemma digit_facts (d : Z) :
  0 <= d <= 9 ->
  is_digit (strftime_impl.digit d) = true /\
  strftime_impl.digit_value (strftime_impl.digit d) = d.
Proof.
  intros H.
  assert (C : d = 0 \/ d = 1 \/ d = 2 \/ d = 3 \/ d = 4 \/
              d = 5 \/ d = 6 \/ d = 7 \/ d = 8 \/ d = 9) by lia.
  repeat (destruct C as [->|C]; [split; reflexivity|]).
  subst d. split; reflexivity.
Qed.

Lemma two_digits_value (n : Z) :
  0 <= n <= 99 -> decimal_value (strftime_impl.two_digits n) = Some n.
Proof.
  intros H. unfold decimal_value, strftime_impl.two_digits.
  cbn [decimal_value_from].
  pose proof (Z.mod_pos_bound (n / 10) 10 ltac:(lia)) as B1.
  pose proof (Z.mod_pos_bound n 10 ltac:(lia)) as B2.
  destruct (digit_facts (n / 10 mod 10) ltac:(lia)) as [D1 V1].
  destruct (digit_facts (n mod 10) ltac:(lia)) as [D2 V2].
  rewrite D1, V1, D2, V2. f_equal.
  Z.div_mod_to_equations. lia.
Qed.

Lemma is_digit_mod10 (x : Z) :
  is_digit (strftime_impl.digit (x mod 10)) = true.
Proof.
  pose proof (Z.mod_pos_bound x 10 ltac:(lia)) as B.
  now destruct (digit_facts (x mod 10) ltac:(lia)).
Qed.

Lemma years_printed_ok :
  forallb year_printed_ok (map Z.of_nat (seq 1 (Z.to_nat 9999))) = true.
Proof. vm_compute. reflexivity. Qed.

(** the year as [%Y] prints it, for the years a [datetime] can hold *)
Lemma year_digits_facts (n : Z) :
  1 <= n <= 9999 ->
  decimal_value (strftime_impl.year_digits n) = Some n /\
  (1000 <= n -> strftime_impl.year_digits n = four_digit_form n) /\
  (n < 1000 -> (String.length (strftime_impl.year_digits n) < 4)%nat).
Proof.
  intros H.
  assert (Hin : In n (map Z.of_nat (seq 1 (Z.to_nat 9999)))).
  { replace n with (Z.of_nat (Z.to_nat n)) by lia.
    apply in_map, in_seq. lia. }
  pose proof (proj1 (forallb_forall _ _) years_printed_ok n Hin) as Hok.
  unfold year_printed_ok in Hok.
  destruct (decimal_value (strftime_impl.year_digits n)) as [m|]; [|discriminate].
  apply andb_true_iff in Hok as [Hm Hlen]. apply Z.eqb_eq in Hm. subst m.
  split; [reflexivity|]. split.
  - intros Hge. apply Z.leb_le in Hge. rewrite Hge in Hlen.
    now apply String.eqb_eq.
  - intros Hlt. apply Z.leb_gt in Hlt. rewrite Hlt in Hlen.
    now apply Nat.ltb_lt.
Qed.

(** ** The fields of a record *)

(** The extension of the record of ["/data/.bashrc"] is the sentinel,
    and not the text after the last ['.'] of the base name. *)
Lemma extension_is_not_text_after_last_dot :
  ~ (forall (os : OS) (p : string) (w : World) (r : FileRecord) (w' : World),
       _extract_metadata os p w = (Ok r, w') ->
       extension r = spec_extension p).
Proof.
  intros H.
  specialize (H Sample.os "/data/.bashrc" Sample.fresh
                (mkFileRecord "/data/.bashrc" 120 "<no-ext>" "2024-01-15 09:05:07")
                (snd (_extract_metadata Sample.os "/data/.bashrc" Sample.fresh))
                eq_refl).
  vm_compute in H. discriminate.
Qed.

Lemma spec_modified_format_length (s : string) :
  spec_modified_format s = true -> String.length s = 19%nat.
Proof.
  unfold spec_modified_format.
  do 19 (destruct s as [|? s]; [discriminate|]).
  destruct s; [reflexivity|discriminate].
Qed.




(** * Further properties of the scanner *)

Lemma extract_result_outcome (os : OS) (p : string) (w : World) :
  match fst (_extract_metadata os p w) with
  | Ok r => Some r
  | Raise _ => None
  end = yield_of (outcome os p).
Proof.
  rewrite _extract_metadata_outcome. now destruct (outcome os p).
Qed.

(** X1. The traversal yields one value for every file [os.walk] lists,
    in the order of the listing: at the place of a file stands what
    [_extract_metadata] returns for its full path, or [None] when it
    raises.  That result is the same in whatever state the scanner is,
    and a yielded record carries the full path of its file. *)
Theorem scan_yields_in_walk_order
        (os : OS) (tree : list (string * list string * list string)) (w : World) :
  exists ys w',
    scan_walk os tree w = (Ok ys, w') /\
    List.length ys = List.length (walk_paths tree) /\
    forall i p,
      nth_error (walk_paths tree) i = Some p ->
      (forall w0,
         nth_error ys i =
         Some (match fst (_extract_metadata os p w0) with
               | Ok r => Some r
               | Raise _ => None
               end)) /\
      (forall r, nth_error ys i = Some (Some r) -> path r = p).
Proof.
  eexists. eexists. split; [apply scan_walk_outcomes|].
  split; [now rewrite !length_map|].
  intros i p Hi.
  assert (Hy : nth_error (map yield_of (map (outcome os) (walk_paths tree))) i =
               Some (yield_of (outcome os p))).
  { rewrite map_map.
    apply (map_nth_error (fun x => yield_of (outcome os x)) i (walk_paths tree) Hi). }
  split.
  - intros w0. now rewrite extract_result_outcome.
  - intros r Hr. rewrite Hy in Hr. injection Hr as Hr.
    destruct (outcome os p) as [r'|q e] eqn:E; [|discriminate].
    injection Hr as ->. now apply outcome_processed_path in E.
Qed.

Lemma scan_yields_in_walk_order_witness :
  exists ys w',
    scan_walk Sample.os Sample.tree Sample.fresh = (Ok ys, w') /\
    nth_error ys 1 =
      Some (Some (mkFileRecord "/data/big.bin" 10485761 ".bin" "2024-01-15 09:05:07")) /\
    nth_error ys 3 = Some None.
Proof.
  destruct (scan_yields_in_walk_order Sample.os Sample.tree Sample.fresh)
    as (ys & w' & Hrun & _ & Hat).
  exists ys, w'. split; [exact Hrun|]. split.
  - destruct (Hat 1%nat "/data/big.bin" eq_refl) as [H _].
    apply (H Sample.fresh).
  - destruct (Hat 3%nat "/data/fail_me.log" eq_refl) as [H _].
    apply (H Sample.fresh).
Defined.

(** X2. After the scan of a new scanner the extension index has one key
    for every extension borne by a yielded record and no other key, and
    the count under a key is the number of yielded records of that
    extension: no key is listed twice and no count is below 1. *)
Theorem extension_index_after_scan
        (os : OS) (root : string) (mb : Z) (lg : list LogRecord) :
  exists ys w',
    scan os (mkWorld (init root mb) lg) = (Ok ys, w') /\
    NoDup (Dict.keys (extension_count (self w'))) /\
    (forall ext,
       Dict.get (extension_count (self w')) ext =
       if count_ext ext (processed_records ys) =? 0 then None
       else Some (count_ext ext (processed_records ys))) /\
    (forall ext n, Dict.get (extension_count (self w')) ext = Some n -> 1 <= n) /\
    (forall r, In (Some r) ys ->
       exists n, Dict.get (extension_count (self w')) (extension r) = Some n).
Proof.
  set (w := mkWorld (init root mb) lg).
  eexists. eexists. split; [apply scan_run_ok, counters_ok_init|].
  assert (Hget : forall ext,
    Dict.get (extension_count
                (self (fold_left apply_outcome (scan_outcomes os w) w))) ext =
    if count_ext ext (processed_records (map yield_of (scan_outcomes os w))) =? 0
    then None
    else Some (count_ext ext (processed_records (map yield_of (scan_outcomes os w))))).
  { intros ext. rewrite traversal_extension_key. simpl.
    destruct (_ =? 0);
      [reflexivity|first [reflexivity|f_equal; unfold count_of; simpl; lia]]. }
  split; [apply traversal_keys_NoDup; constructor|].
  split; [exact Hget|]. split.
  - intros ext n H. rewrite Hget in H.
    destruct (_ =? 0) eqn:E; [discriminate|]. injection H as <-.
    apply Z.eqb_neq in E. unfold count_ext in *. lia.
  - intros r Hr. apply In_processed_records in Hr. rewrite Hget.
    assert (Hpos : count_ext (extension r)
              (processed_records (map yield_of (scan_outcomes os w))) <> 0).
    { unfold count_ext.
      assert (Hin : In r (filter (fun r0 => String.eqb (extension r0) (extension r))
                         (processed_records (map yield_of (scan_outcomes os w)))))
        by (apply filter_In; split; [assumption|apply String.eqb_refl]).
      destruct (filter _ _); [contradiction|]. simpl List.length. lia. }
    apply Z.eqb_neq in Hpos. rewrite Hpos. eexists. reflexivity.
Qed.

Lemma extension_index_after_scan_witness :
  exists ys w',
    scan Sample.os Sample.fresh = (Ok ys, w') /\
    (Dict.get (extension_count (self w')) ".txt" = Some 2 -> 1 <= 2).
Proof.
  destruct (extension_index_after_scan Sample.os "/data" 10 [])
    as (ys & w' & Hrun & _ & _ & Hpos & _).
  exists ys, w'. split; [exact Hrun|]. apply Hpos.
Defined.

(** X3. After the scan of a new scanner with a threshold of [mb]
    megabytes the large-file list holds, in the order they were found,
    the paths of the yielded records that are not empty and whose size
    is above [mb * 1024 * 1024], and nothing else; each of these paths
    is also listed in the duplicate index under its base name. *)
Theorem large_files_after_scan
        (os : OS) (root : string) (mb : Z) (lg : list LogRecord) :
  exists ys w',
    scan os (mkWorld (init root mb) lg) = (Ok ys, w') /\
    large_files (self w') =
      map path (filter (is_large (mb * 1024 * 1024)) (processed_records ys)) /\
    (forall p, In p (large_files (self w')) ->
       In p (paths_of (duplicates (self w')) (posixpath.basename p))).
Proof.
  set (w := mkWorld (init root mb) lg).
  eexists. eexists. split; [apply scan_run_ok, counters_ok_init|].
  assert (Hl : large_files (self (fold_left apply_outcome (scan_outcomes os w) w)) =
               map path (filter (is_large (mb * 1024 * 1024))
                           (processed_records (map yield_of (scan_outcomes os w)))))
    by now rewrite traversal_large_files.
  split; [exact Hl|].
  intros p Hp. rewrite Hl in Hp.
  apply in_map_iff in Hp as (r & Hpath & Hr). apply filter_In in Hr as [Hr _].
  rewrite traversal_paths_of. apply in_or_app. right.
  unfold paths_named. apply filter_In. split.
  - rewrite <- Hpath. now apply in_map.
  - apply String.eqb_refl.
Qed.

Lemma large_files_after_scan_witness :
  exists ys w',
    scan Sample.os Sample.fresh = (Ok ys, w') /\
    (In "/data/big.bin" (large_files (self w')) ->
     In "/data/big.bin" (paths_of (duplicates (self w')) "big.bin")).
Proof.
  destruct (large_files_after_scan Sample.os "/data" 10 [])
    as (ys & w' & Hrun & _ & Hin).
  exists ys, w'. split; [exact Hrun|]. apply (Hin "/data/big.bin").
Defined.

(** X4. A second scan by the same scanner, over an unchanged file
    system, adds to what the first left: it yields the same values, and
    afterwards every counter and every count of the extension index is
    twice what it was, and the large-file list and every sequence of the
    duplicate index hold their entries twice over. *)
Theorem rescan_accumulates
        (os : OS) (root : string) (mb : Z) (lg : list LogRecord) :
  exists ys w1 w2,
    scan os (mkWorld (init root mb) lg) = (Ok ys, w1) /\
    scan os w1 = (Ok ys, w2) /\
    total_discovered (self w2) = 2 * total_discovered (self w1) /\
    total_processed (self w2) = 2 * total_processed (self w1) /\
    total_failed (self w2) = 2 * total_failed (self w1) /\
    (forall ext,
       count_of (extension_count (self w2)) ext =
       2 * count_of (extension_count (self w1)) ext) /\
    large_files (self w2) = large_files (self w1) ++ large_files (self w1) /\
    (forall name,
       paths_of (duplicates (self w2)) name =
       paths_of (duplicates (self w1)) name ++ paths_of (duplicates (self w1)) name).
Proof.
  set (w := mkWorld (init root mb) lg).
  set (outs := scan_outcomes os w).
  set (w1 := fold_left apply_outcome outs w).
  assert (Hc1 : counters_ok (self w1))
    by (apply traversal_counters_ok, counters_ok_init).
  assert (Houts : scan_outcomes os w1 = outs).
  { unfold scan_outcomes, w1. now rewrite traversal_root_path. }
  exists (map yield_of outs), w1, (fold_left apply_outcome outs w1).
  split; [apply scan_run_ok, counters_ok_init|].
  split; [rewrite scan_run_ok by assumption; now rewrite Houts|].
  assert (D1 : total_discovered (self w1) = Z.of_nat (List.length outs))
    by (unfold w1; rewrite traversal_discovered; simpl; lia).
  assert (P1 : total_processed (self w1) =
               Z.of_nat (List.length (processed_records (map yield_of outs))))
    by (unfold w1; rewrite traversal_processed; simpl; lia).
  assert (F1 : total_failed (self w1) = count_none (map yield_of outs))
    by (unfold w1; rewrite traversal_failed; simpl; lia).
  assert (T1 : large_file_threshold_bytes (self w1) = mb * 1024 * 1024)
    by (unfold w1; now rewrite traversal_threshold).
  assert (L1 : large_files (self w1) =
               map path (filter (is_large (mb * 1024 * 1024))
                           (processed_records (map yield_of outs))))
    by (unfold w1; now rewrite traversal_large_files).
  assert (E1 : forall ext,
             count_of (extension_count (self w1)) ext =
             count_ext ext (processed_records (map yield_of outs))).
  { intros ext. unfold w1. rewrite traversal_count_of.
    unfold count_of. simpl. lia. }
  assert (N1 : forall name,
             paths_of (duplicates (self w1)) name =
             paths_named name (processed_records (map yield_of outs)))
    by (intros name; unfold w1; now rewrite traversal_paths_of).
  rewrite traversal_discovered, traversal_processed, traversal_failed,
    traversal_large_files, T1, <- L1.
  repeat (split; [lia|]).
  split; [|split; [reflexivity|]].
  - intros ext. rewrite traversal_count_of, <- E1. lia.
  - intros name. now rewrite traversal_paths_of, <- N1.
Qed.

Lemma count_level_app (lvl : Level) (a b : list LogRecord) :
  count_level lvl (a ++ b) = count_level lvl a + count_level lvl b.
Proof. unfold count_level. rewrite filter_app, length_app. lia. Qed.

Lemma traversal_log (outs : list Outcome) : forall w,
  log (fold_left apply_outcome outs w) =
  log w ++ flat_map (diagnostics (large_file_threshold_bytes (self w))) outs.
Proof.
  induction outs as [|o outs IH]; intros w; simpl fold_left.
  - simpl. now rewrite app_nil_r.
  - rewrite IH, apply_outcome_log, apply_outcome_threshold, <- app_assoc.
    destruct o; reflexivity.
Qed.

Lemma count_level_single (lvl : Level) (x : LogRecord) :
  count_level lvl [x] = if level_eqb (levelname x) lvl then 1 else 0.
Proof. unfold count_level. simpl. now destruct (level_eqb _ _). Qed.

Lemma diagnostics_counts (thr : Z) (outs : list Outcome) :
  count_level ERROR (flat_map (diagnostics thr) outs) =
    count_none (map yield_of outs) /\
  count_level WARNING (flat_map (diagnostics thr) outs) =
    Z.of_nat (List.length (filter (warned thr)
                             (processed_records (map yield_of outs)))) /\
  count_level INFO (flat_map (diagnostics thr) outs) = 0.
Proof.
  induction outs as [|o outs (IHe & IHw & IHi)]; [repeat split|].
  cbn [flat_map]. rewrite !count_level_app, IHe, IHw, IHi.
  destruct o as [r|p e]; cbn [map yield_of processed_records count_none filter
                                diagnostics].
  - destruct (size r =? 0) eqn:E0.
    + assert (Hw : warned thr r = true) by (unfold warned; now rewrite E0).
      rewrite Hw, !count_level_single. cbn [levelname level_eqb List.length].
      repeat split; lia.
    + destruct (size r >? thr) eqn:E1.
      * assert (Hw : warned thr r = true) by (unfold warned; now rewrite E0, E1).
        rewrite Hw, !count_level_single. cbn [levelname level_eqb List.length].
        repeat split; lia.
      * assert (Hw : warned thr r = false) by (unfold warned; now rewrite E0, E1).
        rewrite Hw.
        change (count_level ERROR []) with 0.
        change (count_level WARNING []) with 0.
        change (count_level INFO []) with 0.
        repeat split; lia.
  - rewrite !count_level_single. cbn [levelname level_eqb].
    repeat split; lia.
Qed.

(** X5. A traversal only adds to the log, and what it adds is one
    [ERROR] record for every [None] it yields, one [WARNING] record for
    every yielded record that is empty or above the threshold, and no
    [INFO] record: never more than one record for a file. *)
Theorem one_diagnostic_per_file
        (os : OS) (tree : list (string * list string * list string)) (w : World) :
  exists ys w' added,
    scan_walk os tree w = (Ok ys, w') /\
    log w' = log w ++ added /\
    count_level ERROR added = count_none ys /\
    count_level WARNING added =
      Z.of_nat (List.length
                  (filter (warned (large_file_threshold_bytes (self w)))
                          (processed_records ys))) /\
    count_level INFO added = 0 /\
    (List.length added <= List.length ys)%nat.
Proof.
  set (outs := map (outcome os) (walk_paths tree)).
  exists (map yield_of outs), (fold_left apply_outcome outs w),
         (flat_map (diagnostics (large_file_threshold_bytes (self w))) outs).
  split; [apply scan_walk_outcomes|]. split; [apply traversal_log|].
  destruct (diagnostics_counts (large_file_threshold_bytes (self w)) outs)
    as (He & Hw & Hi).
  repeat (split; [assumption|]).
  rewrite length_map. clear. induction outs as [|o outs IH]; [simpl; lia|].
  cbn [flat_map]. rewrite length_app. cbn [List.length].
  assert (List.length (diagnostics (large_file_threshold_bytes (self w)) o) <= 1)%nat.
  { destruct o as [r|p e]; cbn [diagnostics]; [|simpl; lia].
    destruct (size r =? 0); [simpl; lia|].
    destruct (size r >? _); simpl; lia. }
  lia.
Qed.

(** X6. The calls [main] makes on a new scanner, in its order - the
    scan to the end, [report_duplicates], [report_summary],
    [get_summary] - all return: the summary exists, its counters are the
    number of files listed, of records yielded and of [None] yielded,
    the first is the sum of the other two, and its indices are those of
    the scanner after the scan. *)
Theorem scan_then_summary
        (os : OS) (root : string) (mb : Z) (lg : list LogRecord) :
  exists ys sm w',
    (ys <- scan os ;;
     report_duplicates ;;;
     report_summary ;;;
     sm <- get_summary ;;
     ret (ys, sm)) (mkWorld (init root mb) lg) = (Ok (ys, sm), w') /\
    self w' = self (snd (scan os (mkWorld (init root mb) lg))) /\
    summary_total_discovered sm =
      Z.of_nat (List.length (walk_paths (os_walk os root))) /\
    summary_total_processed sm = Z.of_nat (List.length (processed_records ys)) /\
    summary_total_failed sm = count_none ys /\
    summary_total_discovered sm =
      summary_total_processed sm + summary_total_failed sm /\
    summary_extension_count sm = extension_count (self w') /\
    summary_large_files sm = large_files (self w') /\
    summary_duplicates sm = duplicates (self w').
Proof.
  set (w := mkWorld (init root mb) lg).
  set (outs := scan_outcomes os w).
  set (w1 := fold_left apply_outcome outs w).
  assert (Hc1 : counters_ok (self w1))
    by (apply traversal_counters_ok, counters_ok_init).
  pose proof Hc1 as Hb. apply counters_ok_eqb in Hb.
  eexists. eexists. eexists. split.
  - unfold bind at 1. rewrite scan_run_ok by apply counters_ok_init.
    fold outs. fold w1.
    unfold bind at 1. rewrite report_duplicates_run.
    unfold bind at 1. rewrite report_summary_run.
    unfold bind at 1. rewrite get_summary_run. cbn [self]. rewrite Hb.
    reflexivity.
  - rewrite scan_run_ok by apply counters_ok_init. fold outs. fold w1.
    cbn [self snd summary_total_discovered summary_total_processed
         summary_total_failed summary_extension_count summary_large_files
         summary_duplicates].
    split; [reflexivity|].
    assert (D1 : total_discovered (self w1) =
                 Z.of_nat (List.length (walk_paths (os_walk os root)))).
    { unfold w1. rewrite traversal_discovered. unfold outs, scan_outcomes.
      rewrite length_map. simpl. lia. }
    assert (P1 : total_processed (self w1) =
                 Z.of_nat (List.length (processed_records (map yield_of outs))))
      by (unfold w1; rewrite traversal_processed; simpl; lia).
    assert (F1 : total_failed (self w1) = count_none (map yield_of outs))
      by (unfold w1; rewrite traversal_failed; simpl; lia).
    repeat split; assumption.
Qed.

(** ** Paths, names and extensions *)

Lemma has_char_append (c : ascii) (a b : string) :
  has_char c (a +++ b) = orb (has_char c a) (has_char c b).
Proof.
  induction a as [|x a IH]; cbn [String.append has_char]; [reflexivity|].
  now rewrite IH, orb_assoc.
Qed.

Lemma endswith_inv (s : string) (c : ascii) :
  Str.endswith s c = true -> exists s', s = s' +++ String c EmptyString.
Proof.
  induction s as [|a s IH]; cbn [Str.endswith]; [discriminate|].
  destruct s as [|b s].
  - intros H. apply Ascii.eqb_eq in H. subst a. now exists EmptyString.
  - intros H. destruct (IH H) as [s' Hs']. exists (String a s').
    cbn [String.append]. now rewrite <- Hs'.
Qed.

Lemma basename_after_sep (a f : string) :
  has_char posixpath.sep f = false ->
  posixpath.basename (a +++ String posixpath.sep f) = f.
Proof.
  intros H. unfold posixpath.basename. rewrite rfind_last by assumption.
  assert (E : a +++ String posixpath.sep f =
              (a +++ String posixpath.sep EmptyString) +++ f)
    by now rewrite append_assoc.
  assert (L : Str.len (a +++ String posixpath.sep EmptyString) = Str.len a + 1)
    by (rewrite len_append; reflexivity).
  rewrite <- L, E. apply slice_from_append.
Qed.

Lemma basename_no_sep (f : string) :
  has_char posixpath.sep f = false -> posixpath.basename f = f.
Proof.
  intros H. unfold posixpath.basename. rewrite rfind_absent by assumption.
  change (Str.slice_from f (-1 + 1)) with (Str.drop 0 f). now destruct f.
Qed.

(** X7. For a file name without ['/'], as [os.walk] lists them, the
    base name of the full path [join(root, filename)] is the file name
    again, whatever the directory.  So the test for "fail" looks at the
    listed name, and a processed file is entered in the duplicate index
    under its listed name. *)
Theorem basename_of_joined_path (os : OS) (root filename : string) :
  has_char posixpath.sep filename = false ->
  posixpath.basename (posixpath.join root filename) = filename /\
  name_has_fail (posixpath.join root filename) =
    Str.contains "fail" (Str.lower filename) /\
  forall w r w',
    scan_file os root filename w = (Ok (Some r), w') ->
    Dict.get (duplicates (self w')) filename =
      Some (paths_of (duplicates (self w)) filename ++
            [posixpath.join root filename]).
Proof.
  intros Hf.
  assert (Hb : posixpath.basename (posixpath.join root filename) = filename).
  { unfold posixpath.join.
    destruct (Str.startswith filename (String posixpath.sep EmptyString)) eqn:Hs.
    - apply prefix_inv in Hs as [b ->]. cbn [String.append has_char] in Hf.
      rewrite Ascii.eqb_refl in Hf. discriminate.
    - destruct (Str.truthy root) eqn:Ht; cbn [negb orb].
      + destruct (Str.endswith root posixpath.sep) eqn:He.
        * apply endswith_inv in He as [root' ->].
          rewrite append_assoc. cbn [String.append].
          now apply basename_after_sep.
        * now apply basename_after_sep.
      + destruct root; [|discriminate]. cbn [String.append].
        now apply basename_no_sep. }
  split; [exact Hb|]. split; [unfold name_has_fail; now rewrite Hb|].
  intros w r w' H. rewrite scan_file_outcome in H.
  destruct (outcome os _) as [r'|q e] eqn:E; [|discriminate].
  injection H as <- <-.
  destruct (outcome_processed_path _ _ _ E) as [Hpath _].
  change (count_processed (record_file r' (discover w)))
    with (apply_outcome w (Processed r')).
  rewrite apply_outcome_duplicates, Hpath, Hb.
  rewrite get_set_eq. reflexivity.
Qed.

Lemma basename_of_joined_path_witness :
  posixpath.basename (posixpath.join "/data/sub/" "a.txt") = "a.txt" /\
  name_has_fail (posixpath.join "/data/sub/" "a.txt") =
    Str.contains "fail" (Str.lower "a.txt").
Proof.
  destruct (basename_of_joined_path Sample.os "/data/sub/" "a.txt" eq_refl)
    as (H1 & H2 & _).
  split; [exact H1|exact H2].
Defined.

Lemma splitext_by_basename (p : string) :
  (has_char posixpath.extsep (posixpath.basename p) = false ->
   snd (posixpath.splitext p) = EmptyString) /\
  (forall stem suf,
     posixpath.basename p = stem +++ String posixpath.extsep suf ->
     has_char posixpath.extsep suf = false ->
     snd (posixpath.splitext p) =
     if all_dots stem then EmptyString else String posixpath.extsep suf).
Proof.
  destruct (basename_decompose p) as (dir & Hp & Hsep & _).
  set (b := posixpath.basename p) in *. clearbody b. subst p. split.
  - intros Hb. now apply splitext_no_dot.
  - intros stem suf Hb Hsuf. now apply splitext_last_dot.
Qed.

(** X8. The extension of a record is never empty: it is the sentinel
    ["<no-ext>"], or a ['.'] followed by text that holds neither ['.']
    nor ['/'].  The two cases exclude each other, so the sentinel is
    never taken for the extension of a file. *)
Theorem extension_is_sentinel_or_dotted
        (os : OS) (p : string) (w : World) (r : FileRecord) (w' : World) :
  _extract_metadata os p w = (Ok r, w') ->
  extension r <> EmptyString /\
  (extension r = no_ext \/
   exists suf,
     extension r = String posixpath.extsep suf /\
     extension r <> no_ext /\
     has_char posixpath.extsep suf = false /\
     has_char posixpath.sep suf = false).
Proof.
  intros Hrun. apply extract_ok_inv in Hrun as [Ho _].
  destruct (outcome_processed_inv _ _ _ Ho)
    as (_ & t & dt & _ & _ & _ & _ & Hext & _).
  destruct (basename_decompose p) as (dir & Hp & Hsep & Hnosep).
  assert (Hcases :
    extension r = no_ext \/
    exists suf,
      extension r = String posixpath.extsep suf /\
      has_char posixpath.extsep suf = false /\
      has_char posixpath.sep suf = false).
  { destruct (splitext_by_basename p) as [Hnone Hlast].
    destruct (has_char posixpath.extsep (posixpath.basename p)) eqn:Hdot.
    - destruct (last_occurrence _ _ Hdot) as (stem & suf & Hb & Hsuf).
      rewrite Hext, (Hlast stem suf Hb Hsuf).
      destruct (all_dots stem); [now left|]. right. exists suf.
      split; [reflexivity|]. split; [exact Hsuf|].
      rewrite Hb, has_char_append in Hnosep.
      apply orb_false_iff in Hnosep as [_ Hnosep].
      cbn [has_char] in Hnosep. now apply orb_false_iff in Hnosep as [_ ?].
    - rewrite Hext, (Hnone eq_refl). now left. }
  split.
  - destruct Hcases as [->|(suf & -> & _)]; discriminate.
  - destruct Hcases as [H|(suf & H & H1 & H2)]; [now left|].
    right. exists suf. repeat split; try assumption.
    rewrite H. discriminate.
Qed.

Lemma extension_is_sentinel_or_dotted_witness :
  exists r w',
    _extract_metadata Sample.os "/data/big.bin" Sample.fresh = (Ok r, w') /\
    extension r <> EmptyString.
Proof.
  exists (mkFileRecord "/data/big.bin" 10485761 ".bin" "2024-01-15 09:05:07"),
         (snd (_extract_metadata Sample.os "/data/big.bin" Sample.fresh)).
  split; [reflexivity|].
  destruct (extension_is_sentinel_or_dotted Sample.os "/data/big.bin" Sample.fresh
              (mkFileRecord "/data/big.bin" 10485761 ".bin" "2024-01-15 09:05:07")
              (snd (_extract_metadata Sample.os "/data/big.bin" Sample.fresh))
              eq_refl) as [H _].
  exact H.
Defined.

Lemma duplicate_index_and_report_key_form
      (os : OS) (root : string) (mb : Z) (lg : list LogRecord) :
  exists ys w',
    scan os (mkWorld (init root mb) lg) = (Ok ys, w') /\
    NoDup (Dict.keys (duplicates (self w'))) /\
    forall name,
      Dict.get (duplicates (self w')) name =
      match paths_named name (processed_records ys) with
      | [] => None
      | l => Some l
      end.
Proof.
  set (w := mkWorld (init root mb) lg).
  eexists. eexists. split; [apply scan_run_ok, counters_ok_init|].
  split; [apply traversal_keys_NoDup; constructor|].
  intros name. rewrite traversal_duplicates_key.
  now destruct (paths_named name _).
Qed.

(** X9. After the scan of a new scanner [report_duplicates] logs a
    name exactly when two or more yielded records bear it as the base
    name of their path, and logs it with the paths of all of them, in
    the order they were found; it logs nothing else. *)
Theorem duplicates_reported_after_scan
        (os : OS) (root : string) (mb : Z) (lg : list LogRecord) :
  exists ys w',
    scan os (mkWorld (init root mb) lg) = (Ok ys, w') /\
    forall x,
      In x (log (snd (report_duplicates (mkWorld (self w') [])))) <->
      exists name,
        x = mkLogRecord INFO
              (MsgDuplicate name (paths_named name (processed_records ys))) /\
        (2 <= List.length (paths_named name (processed_records ys)))%nat.
Proof.
  destruct (duplicate_index_and_report_key_form os root mb lg)
    as (ys & w' & Hrun & Hnd & Hget).
  exists ys, w'. split; [exact Hrun|].
  intros x. rewrite report_duplicates_run. cbn [snd log self app].
  rewrite in_map_iff. unfold Dict.items. split.
  - intros ([name paths] & <- & Hin). apply filter_In in Hin as [Hin Hlen].
    apply (In_get _ _ _ Hnd) in Hin. rewrite Hget in Hin.
    destruct (paths_named name (processed_records ys)) as [|q l] eqn:E;
      [discriminate|].
    injection Hin as <-. exists name. cbn [fst snd]. rewrite E.
    split; [reflexivity|].
    unfold more_than_one in Hlen. cbn [snd] in Hlen. apply gtb_lt in Hlen. lia.
  - intros (name & -> & Hlen).
    exists (name, paths_named name (processed_records ys)).
    split; [reflexivity|]. apply filter_In. split.
    + apply get_In. rewrite Hget.
      destruct (paths_named name (processed_records ys)); [simpl in Hlen; lia|].
      reflexivity.
    + unfold more_than_one. cbn [snd]. apply gtb_lt. lia.
Qed.

Lemma duplicates_reported_after_scan_witness :
  exists ys w',
    scan Sample.os Sample.fresh = (Ok ys, w') /\
    (In (mkLogRecord INFO
           (MsgDuplicate "a.txt" (paths_named "a.txt" (processed_records ys))))
        (log (snd (report_duplicates (mkWorld (self w') [])))) <->
     exists name,
       mkLogRecord INFO
         (MsgDuplicate "a.txt" (paths_named "a.txt" (processed_records ys))) =
       mkLogRecord INFO
         (MsgDuplicate name (paths_named name (processed_records ys))) /\
       (2 <= List.length (paths_named name (processed_records ys)))%nat).
Proof.
  destruct (duplicates_reported_after_scan Sample.os "/data" 10 [])
    as (ys & w' & Hrun & Hiff).
  exists ys, w'. split; [exact Hrun|]. apply Hiff.
Defined.

(** * Properties of the report *)

Section SortedByCount.

Let by_count_desc (x y : string * Z) : Prop := snd y <= snd x.

Lemma insert_desc_perm (x : string * Z) (l : list (string * Z)) :
  Permutation (ReportWriter.insert_desc x l) (x :: l).
Proof.
  induction l as [|y l IH]; simpl; [reflexivity|].
  destruct (snd y >? snd x); [|reflexivity].
  rewrite IH. apply perm_swap.
Qed.

Lemma insert_desc_sorted (x : string * Z) (l : list (string * Z)) :
  StronglySorted by_count_desc l ->
  StronglySorted by_count_desc (ReportWriter.insert_desc x l).
Proof.
  induction l as [|y l IH]; intros Hs; simpl.
  - constructor; constructor.
  - inversion Hs as [|? ? Hl Hy]; subst.
    destruct (snd y >? snd x) eqn:E.
    + apply gtb_lt in E. constructor; [now apply IH|].
      rewrite insert_desc_perm.
      constructor; [unfold by_count_desc; lia|assumption].
    + apply gtb_ge in E. constructor; [assumption|].
      constructor; [exact E|].
      eapply Forall_impl; [|exact Hy].
      unfold by_count_desc. intros z Hz. lia.
Qed.

Lemma insert_desc_filter (c : Z) (x : string * Z) (l : list (string * Z)) :
  filter (fun z => snd z =? c) (ReportWriter.insert_desc x l) =
  filter (fun z => snd z =? c) (x :: l).
Proof.
  induction l as [|y l IH]; [reflexivity|].
  cbn [ReportWriter.insert_desc].
  destruct (snd y >? snd x) eqn:E; [|reflexivity].
  apply gtb_lt in E. cbn [filter] in *. rewrite IH.
  destruct (snd x =? c) eqn:Ex; destruct (snd y =? c) eqn:Ey; try reflexivity.
  apply Z.eqb_eq in Ex, Ey. lia.
Qed.

(** X10. The section "File Extensions Count" lists the extensions of
    the summary by count, highest first: the sorted sequence holds the
    same items as the index, each as often; no item is followed by one
    of a higher count; and items of equal count keep the order they have
    in the index.  For an index that is not empty the section is its
    heading, one bullet for each item of that sequence, and an empty
    line. *)
Theorem extensions_sorted_by_count :
  (forall l,
     Permutation (ReportWriter.sorted_by_count_desc l) l /\
     StronglySorted (fun x y => snd y <= snd x)
                    (ReportWriter.sorted_by_count_desc l) /\
     forall c,
       filter (fun z => snd z =? c) (ReportWriter.sorted_by_count_desc l) =
       filter (fun z => snd z =? c) l) /\
  (forall sm,
     summary_extension_count sm <> [] ->
     ReportWriter.write_extensions sm =
     ("## File Extensions Count" +++ ReportWriter.nl +++ ReportWriter.nl) ::
     map (fun x => "- **" +++ fst x +++ "**: " +++ Str.of_int (snd x)
                   +++ ReportWriter.nl)
         (ReportWriter.sorted_by_count_desc
            (Dict.items (summary_extension_count sm))) ++
     [ReportWriter.nl]).
Proof.
  split.
  - intros l. unfold ReportWriter.sorted_by_count_desc.
    induction l as [|x l (IHp & IHs & IHf)]; simpl.
    + split; [constructor|]. split; [constructor|reflexivity].
    + split; [|split].
      * rewrite insert_desc_perm. now constructor.
      * now apply insert_desc_sorted.
      * intros c. rewrite insert_desc_filter. cbn [filter]. now rewrite IHf.
  - intros sm Hne. unfold ReportWriter.write_extensions.
    destruct (summary_extension_count sm) as [|x d] eqn:E; [contradiction|].
    cbn [Dict.truthy app]. do 2 f_equal.
    apply map_ext. now intros [ext count].
Qed.

End SortedByCount.

Lemma extensions_sorted_by_count_witness :
  ReportWriter.write_extensions
    (mkSummary 3 3 0 [(".txt", 1); (".bin", 2)] [] []) =
  ["## File Extensions Count" +++ ReportWriter.nl +++ ReportWriter.nl;
   "- **.bin**: 2" +++ ReportWriter.nl;
   "- **.txt**: 1" +++ ReportWriter.nl;
   ReportWriter.nl].
Proof.
  destruct extensions_sorted_by_count as [_ H].
  rewrite H; [reflexivity|discriminate].
Defined.

Lemma filter_placeholder_map {A : Type} (f : A -> string) (l : list A) :
  (forall x, is_placeholder (f x) = false) ->
  filter is_placeholder (map f l) = [].
Proof.
  intros H. induction l as [|x l IH]; simpl; [reflexivity|].
  now rewrite H.
Qed.

Lemma filter_placeholder_groups (groups : list (string * list string)) :
  filter is_placeholder (flat_map ReportWriter.write_group groups) = [].
Proof.
  induction groups as [|[name paths] groups IH]; [reflexivity|].
  cbn [flat_map]. rewrite filter_app, IH, app_nil_r.
  unfold ReportWriter.write_group. rewrite !filter_app.
  rewrite filter_placeholder_map by reflexivity. reflexivity.
Qed.

Lemma filter_more_than_one_nil (d : Dict.t (list string)) :
  filter more_than_one d = [] <->
  forall name paths, In (name, paths) d -> (List.length paths <= 1)%nat.
Proof.
  induction d as [|[k v] d IH]; simpl.
  - split; [intros _ ? ? []|reflexivity].
  - unfold more_than_one at 1. cbn [snd].
    destruct (Z.of_nat (List.length v) >? 1) eqn:E.
    + apply gtb_lt in E. split; [discriminate|].
      intros H. specialize (H k v (or_introl eq_refl)). lia.
    + apply gtb_ge in E. rewrite IH. split.
      * intros H name paths [[= <- <-]|Hin]; [lia|eauto].
      * intros H name paths Hin. eauto.
Qed.

Lemma report_placeholders (output_dir : string) (sm : Summary) (filename : string) :
  filter is_placeholder (snd (ReportWriter.write_report output_dir sm filename)) =
  (match summary_extension_count sm with
   | [] => ["_None found._" +++ ReportWriter.nl]
   | _ => []
   end) ++
  (match summary_large_files sm with
   | [] => ["_None detected._" +++ ReportWriter.nl]
   | _ => []
   end) ++
  (match filter more_than_one (summary_duplicates sm) with
   | [] => ["_No duplicates found._" +++ ReportWriter.nl]
   | _ => []
   end).
Proof.
  unfold ReportWriter.write_report. cbn [snd]. rewrite !filter_app.
  change (filter is_placeholder
            ["# File System Scan Report" +++ ReportWriter.nl +++ ReportWriter.nl])
    with (@nil string).
  change (filter is_placeholder (ReportWriter.write_counters sm)) with (@nil string).
  cbn [app]. f_equal; [|f_equal].
  - unfold ReportWriter.write_extensions. rewrite !filter_app.
    destruct (summary_extension_count sm) as [|x d]; [reflexivity|].
    cbn [Dict.truthy]. rewrite filter_placeholder_map; [reflexivity|].
    now intros [ext count].
  - unfold ReportWriter.write_large_files. rewrite !filter_app.
    destruct (summary_large_files sm) as [|x l]; [reflexivity|].
    rewrite filter_placeholder_map by reflexivity. reflexivity.
  - rewrite write_duplicates_run. cbn [filter is_placeholder].
    unfold Dict.items.
    destruct (filter more_than_one (summary_duplicates sm)) as [|g gs];
      [reflexivity|].
    apply filter_placeholder_groups.
Qed.

(** X11. [write_report] writes the line that stands for an empty
    section exactly when the section has nothing to show: ["_None
    found._"] when the extension index of the summary is empty, ["_None
    detected._"] when its large-file list is empty, and ["_No duplicates
    found._"] when no name of its duplicate index has more than one
    path, even if the index is not empty. *)
Theorem report_placeholders_iff
        (output_dir : string) (sm : Summary) (filename : string) :
  let chunks := snd (ReportWriter.write_report output_dir sm filename) in
  (In ("_None found._" +++ ReportWriter.nl) chunks <->
   summary_extension_count sm = []) /\
  (In ("_None detected._" +++ ReportWriter.nl) chunks <->
   summary_large_files sm = []) /\
  (In ("_No duplicates found._" +++ ReportWriter.nl) chunks <->
   forall name paths,
     In (name, paths) (summary_duplicates sm) -> (List.length paths <= 1)%nat).
Proof.
  intros chunks.
  assert (Hin : forall ph, is_placeholder ph = true ->
                  (In ph chunks <-> In ph (filter is_placeholder chunks))).
  { intros ph Hph. rewrite filter_In. tauto. }
  rewrite <- filter_more_than_one_nil.
  rewrite !Hin by reflexivity. unfold chunks. rewrite report_placeholders.
  destruct (summary_extension_count sm) as [|x d];
    destruct (summary_large_files sm) as [|y l];
    destruct (filter more_than_one (summary_duplicates sm)) as [|g gs];
    cbn [app In];
    (split; [|split]); split;
      try discriminate; try tauto;
      try (intros _; tauto);
      intros H; repeat (destruct H as [H|H]; try discriminate H); try contradiction.
Qed.

Lemma report_placeholders_iff_witness :
  In ("_No duplicates found._" +++ ReportWriter.nl)
     (snd (ReportWriter.write_report "reports"
             (mkSummary 2 2 0 [(".txt", 2)] []
                        [("a.txt", ["/d/a.txt"]); ("b.txt", ["/d/b.txt"])])
             "scan_report.md")).
Proof.
  destruct (report_placeholders_iff "reports"
              (mkSummary 2 2 0 [(".txt", 2)] []
                         [("a.txt", ["/d/a.txt"]); ("b.txt", ["/d/b.txt"])])
              "scan_report.md") as (_ & _ & H).
  apply H. intros name paths [[= <- <-]|[[= <- <-]|[]]]; simpl; lia.
Defined.

(** * Properties of the config loader *)

Section ConfigLoader.

Import config_loader.

Variable env : Env.

Lemma dict_set_same {V : Type} (d : Dict.t V) (k : string) (v : V) :
  Dict.get d k = Some v -> Dict.set d k v = d.
Proof.
  induction d as [|[k' v'] d IH]; simpl; [discriminate|].
  destruct (String.eqb k' k) eqn:E.
  - now intros [= ->].
  - intros H. now rewrite IH.
Qed.

Lemma dict_keys_set {V : Type} (d : Dict.t V) (k : string) (v : V) :
  Dict.keys (Dict.set d k v) =
  match Dict.get d k with
  | Some _ => Dict.keys d
  | None => Dict.keys d ++ [k]
  end.
Proof.
  unfold Dict.keys. induction d as [|[k' v'] d IH]; simpl; [reflexivity|].
  destruct (String.eqb k' k) eqn:E; simpl; [reflexivity|].
  rewrite IH. now destruct (Dict.get d k).
Qed.

(** [validate] on a JSON object, case by case *)
Lemma validate_object (d : Dict.t Json) (evs : list Event) :
  validate env (JObject d) evs =
  match Dict.get d "target_folder" with
  | Some (JStr _) =>
      match int env (threshold_value d) with
      | Returns n =>
          let d1 := Dict.set d "large_file_threshold_mb" (JInt n) in
          match Dict.get d "log_level" with
          | Some (JStr level) =>
              let lv := upper env (strip env level) in
              if valid_level lv
              then (Returns (JObject (Dict.set d1 "log_level" (JStr lv))), evs)
              else (Returns (JObject (Dict.set d1 "log_level" (JStr "INFO"))),
                    evs ++ [LogWarningLevel lv])
          | _ => (Raises (TypeError "config['log_level'] must be a string"), evs)
          end
      | Raises (TypeError _) | Raises (ValueError _) =>
          (Raises (TypeError "config['large_file_threshold_mb'] must be an integer"),
           evs)
      | Raises e => (Raises e, evs)
      end
  | _ => (Raises (TypeError "config['target_folder'] must be a string"), evs)
  end.
Proof.
  unfold validate, bind at 1, call at 1, get at 1.
  destruct (Dict.get d "target_folder") as [tf|] eqn:Htf;
    [|reflexivity].
  destruct tf; try reflexivity.
  cbn [is_str negb].
  unfold bind at 1, coerce_threshold, bind at 1, call at 1, get at 1.
  fold (threshold_value d).
  assert (Hv : match Dict.get d "large_file_threshold_mb" with
               | Some v => Returns v
               | None => Returns (JInt 10)
               end = Returns (threshold_value d))
    by (unfold threshold_value;
        now destruct (Dict.get d "large_file_threshold_mb")).
  rewrite Hv.
  destruct (int env (threshold_value d)) as [n|e]; [|now destruct e].
  unfold ret at 1, setitem at 1, bind at 1, call at 1, get at 1.
  rewrite get_set_ne by discriminate.
  destruct (Dict.get d "log_level") as [ll|]; [|reflexivity].
  destruct ll; try reflexivity.
  cbn [setitem]. rewrite set_set.
  destruct (valid_level (upper env (strip env s0))); reflexivity.
Qed.

Lemma validate_not_object (config : Json) (evs : list Event) :
  (forall d, config <> JObject d) ->
  exists msg, validate env config evs = (Raises (AttributeError msg), evs).
Proof.
  intros H. unfold validate, bind, call, get.
  destruct config; try (eexists; reflexivity).
  now specialize (H members).
Qed.

Lemma valid_level_In (level : string) :
  valid_level level = true <-> In level _VALID_LOG_LEVELS.
Proof.
  unfold valid_level. rewrite existsb_exists. split.
  - intros (x & Hin & E). apply String.eqb_eq in E. now subst.
  - intros H. exists level. split; [assumption|apply String.eqb_refl].
Qed.

Lemma validate_returns_well_formed (config config' : Json) (evs evs' : list Event) :
  validate env config evs = (Returns config', evs') -> well_formed config'.
Proof.
  destruct config as [| | | | |items|d];
    try (unfold validate, bind, call, get; intros H; discriminate H).
  rewrite validate_object.
  destruct (Dict.get d "target_folder") as [tf|] eqn:Htf; [|discriminate].
  destruct tf as [| | | |folder| |]; try discriminate.
  destruct (int env (threshold_value d)) as [n|e]; [|destruct e; discriminate].
  cbv zeta.
  destruct (Dict.get d "log_level") as [ll|] eqn:Hll; [|discriminate].
  destruct ll as [| | | |level| |]; try discriminate.
  destruct (valid_level (upper env (strip env level))) eqn:Hv; intros [= <- <-].
  - eexists. exists folder, n, (upper env (strip env level)).
    split; [reflexivity|].
    rewrite !get_set_ne by discriminate.
    rewrite !get_set_eq.
    repeat split; try assumption. now apply valid_level_In.
  - eexists. exists folder, n, "INFO".
    split; [reflexivity|].
    rewrite !get_set_ne by discriminate.
    rewrite !get_set_eq.
    repeat split; try assumption. simpl. tauto.
Qed.

Lemma load_config_validates (config_path : string) (config' : Json)
      (evs evs' : list Event) :
  load_config env config_path evs = (Returns config', evs') ->
  exists config evs0, validate env config evs0 = (Returns config', evs').
Proof.
  unfold load_config, bind at 1, call at 1.
  destruct (parent_mkdir env); [|discriminate].
  unfold bind at 1.
  destruct (file_exists env); cbn [negb].
  - unfold bind at 1, call at 1.
    destruct (read_text env) as [text|]; [|discriminate].
    destruct (json_loads env text) as [config|]; [|discriminate].
    unfold ret at 1. intros H. now exists config, evs.
  - unfold bind at 1, call at 1.
    destruct (write_text env _); [|discriminate].
    unfold bind at 1, emit at 1, bind at 1, emit at 1, ret at 1.
    intros H. eexists. eexists. exact H.
Qed.

End ConfigLoader.

Section ConfigLoaderProperties.

Import config_loader.

Variable env : Env.

(** X12. A config that [load_config] returns is a JSON object whose
    ["target_folder"] is a string, whose ["large_file_threshold_mb"] is
    an [int] and whose ["log_level"] is one of [CRITICAL], [ERROR],
    [WARNING], [INFO] and [DEBUG], whatever the file held. *)
Theorem load_config_returns_well_formed
        (config_path : string) (config : Json) (evs evs' : list Event) :
  load_config env config_path evs = (Returns config, evs') ->
  well_formed config.
Proof.
  intros H. apply load_config_validates in H as (c & evs0 & H).
  eapply validate_returns_well_formed. exact H.
Qed.

Lemma well_formed_passes (config : Json) (evs : list Event) :
  well_formed config -> validate env config evs = (Returns config, evs).
Proof.
  intros (d & folder & mb & level & -> & Htf & Hmb & Hll & Hin).
  rewrite validate_object, Htf.
  unfold threshold_value. rewrite Hmb. cbn [int]. cbv zeta. rewrite Hll.
  rewrite (dict_set_same d "large_file_threshold_mb" (JInt mb) Hmb).
  assert (Hlv : upper env (strip env level) = level /\ valid_level level = true).
  { simpl in Hin.
    destruct Hin as [<-|[<-|[<-|[<-|[<-|[]]]]]]; split; reflexivity. }
  destruct Hlv as [Hup Hv]. rewrite Hup, Hv.
  now rewrite (dict_set_same d "log_level" (JStr level) Hll).
Qed.

(** X13. Validation is idempotent: a config that is already as
    [load_config] returns them passes unchanged and without a warning,
    so validating the result of a validation changes nothing. *)
Theorem validate_idempotent :
  (forall config evs,
     well_formed config -> validate env config evs = (Returns config, evs)) /\
  (forall config config' evs evs',
     validate env config evs = (Returns config', evs') ->
     forall evs2, validate env config' evs2 = (Returns config', evs2)) /\
  (forall config_path config' evs evs',
     load_config env config_path evs = (Returns config', evs') ->
     forall evs2, validate env config' evs2 = (Returns config', evs2)).
Proof.
  split; [|split].
  - intros config evs. apply well_formed_passes.
  - intros config config' evs evs' H evs2.
    apply well_formed_passes. eapply validate_returns_well_formed. exact H.
  - intros config_path config' evs evs' H evs2.
    apply well_formed_passes. eapply load_config_returns_well_formed. exact H.
Qed.

(** X14. When the config file does not exist, [load_config] writes the
    default config to it, logs that it did, and returns the default
    config as it is: target folder ["data"], threshold 10, log level
    ["DEBUG"], without a warning.  If the write fails, the exception
    goes to the caller and nothing is logged. *)
Theorem load_config_creates_default
        (config_path : string) (evs : list Event) :
  parent_mkdir env = Returns tt ->
  file_exists env = false ->
  (write_text env (json_dumps env _DEFAULT_CONFIG) = Returns tt ->
   load_config env config_path evs =
   (Returns _DEFAULT_CONFIG,
    evs ++ [WriteText (json_dumps env _DEFAULT_CONFIG);
            LogInfoCreated config_path])) /\
  (forall e,
     write_text env (json_dumps env _DEFAULT_CONFIG) = Raises e ->
     load_config env config_path evs = (Raises e, evs)).
Proof.
  intros Hmk Hex. unfold load_config, bind at 1, call at 1.
  rewrite Hmk. unfold bind at 1. rewrite Hex. cbn [negb].
  unfold bind at 1, call at 1. split.
  - intros Hw. rewrite Hw.
    unfold bind at 1, emit at 1, bind at 1, emit at 1, ret at 1.
    rewrite well_formed_passes.
    + now rewrite <- app_assoc.
    + eexists. exists "data", 10, "DEBUG". split; [reflexivity|].
      repeat split; simpl; tauto.
  - intros e Hw. now rewrite Hw.
Qed.

(** X15. What [load_config] raises for a file that exists and can be
    read, in the order of its tests: [ValueError] when the text is not
    JSON; [AttributeError] when the JSON value is not an object;
    [TypeError] when ["target_folder"] is missing or not a string; then
    [TypeError] when the threshold is [null], a list, an object, [NaN]
    or a string [int] rejects, but [OverflowError] when it is an
    infinite float; then [TypeError] when ["log_level"] is missing or
    not a string.  In each case nothing is written and nothing
    logged. *)
Theorem load_config_errors
        (config_path text : string) (evs : list Event) :
  parent_mkdir env = Returns tt ->
  file_exists env = true ->
  read_text env = Returns text ->
  (json_loads env text = None ->
   exists msg, load_config env config_path evs = (Raises (ValueError msg), evs)) /\
  (forall config,
     json_loads env text = Some config ->
     (forall d, config <> JObject d) ->
     exists msg,
       load_config env config_path evs = (Raises (AttributeError msg), evs)) /\
  (forall d,
     json_loads env text = Some (JObject d) ->
     (forall folder, Dict.get d "target_folder" <> Some (JStr folder)) ->
     load_config env config_path evs =
     (Raises (TypeError "config['target_folder'] must be a string"), evs)) /\
  (forall d folder,
     json_loads env text = Some (JObject d) ->
     Dict.get d "target_folder" = Some (JStr folder) ->
     ((threshold_value d = JNull \/
       (exists l, threshold_value d = JList l) \/
       (exists o, threshold_value d = JObject o) \/
       threshold_value d = JFloat FNan \/
       (exists s, threshold_value d = JStr s /\ int_of_str env s = None)) ->
      load_config env config_path evs =
      (Raises (TypeError "config['large_file_threshold_mb'] must be an integer"),
       evs)) /\
     ((exists negative, threshold_value d = JFloat (FInf negative)) ->
      exists msg,
        load_config env config_path evs = (Raises (OverflowError msg), evs)) /\
     (forall n,
        int env (threshold_value d) = Returns n ->
        (forall level, Dict.get d "log_level" <> Some (JStr level)) ->
        load_config env config_path evs =
        (Raises (TypeError "config['log_level'] must be a string"), evs))).
Proof.
  intros Hmk Hex Hrd.
  assert (Hload : forall config,
            json_loads env text = Some config ->
            load_config env config_path evs = validate env config evs).
  { intros config Hj. unfold load_config, bind at 1, call at 1.
    rewrite Hmk. unfold bind at 1. rewrite Hex. cbn [negb].
    unfold bind at 1, call at 1. now rewrite Hrd, Hj. }
  split; [|split; [|split]].
  - intros Hj. unfold load_config, bind at 1, call at 1.
    rewrite Hmk. unfold bind at 1. rewrite Hex. cbn [negb].
    unfold bind at 1, call at 1. rewrite Hrd, Hj. eexists. reflexivity.
  - intros config Hj Hno. rewrite (Hload _ Hj).
    now apply validate_not_object.
  - intros d Hj Htf. rewrite (Hload _ Hj), validate_object.
    destruct (Dict.get d "target_folder") as [tf|]; [|reflexivity].
    destruct tf; try reflexivity. now specialize (Htf s).
  - intros d folder Hj Htf. rewrite (Hload _ Hj), validate_object, Htf.
    split; [|split].
    + intros [H|[[l H]|[[o H]|[H|(s & H & Hs)]]]]; rewrite H; cbn [int];
        try reflexivity.
      now rewrite Hs.
    + intros [negative H]. rewrite H. cbn [int]. eexists. reflexivity.
    + intros n Hn Hll. rewrite Hn. cbv zeta.
      destruct (Dict.get d "log_level") as [ll|]; [|reflexivity].
      destruct ll; try reflexivity. now specialize (Hll s).
Qed.

(** X16. Validation keeps what it does not validate: every key other
    than ["large_file_threshold_mb"] and ["log_level"] has the value it
    had, the keys stay in their order, and the only key that can be
    added is ["large_file_threshold_mb"], at the end and with the value
    10, when the config had none. *)
Theorem validate_keeps_other_keys
        (d : Dict.t Json) (config' : Json) (evs evs' : list Event) :
  validate env (JObject d) evs = (Returns config', evs') ->
  exists d',
    config' = JObject d' /\
    (forall k,
       k <> "large_file_threshold_mb" -> k <> "log_level" ->
       Dict.get d' k = Dict.get d k) /\
    Dict.keys d' =
      Dict.keys d ++
      match Dict.get d "large_file_threshold_mb" with
      | Some _ => []
      | None => ["large_file_threshold_mb"]
      end /\
    (Dict.get d "large_file_threshold_mb" = None ->
     Dict.get d' "large_file_threshold_mb" = Some (JInt 10)).
Proof.
  rewrite validate_object.
  destruct (Dict.get d "target_folder") as [tf|] eqn:Htf; [|discriminate].
  destruct tf as [| | | |folder| |]; try discriminate.
  destruct (int env (threshold_value d)) as [n|e] eqn:Hn;
    [|destruct e; discriminate].
  cbv zeta.
  destruct (Dict.get d "log_level") as [ll|] eqn:Hll; [|discriminate].
  destruct ll as [| | | |level| |]; try discriminate.
  assert (Hgoal : forall lv,
    (forall k,
       k <> "large_file_threshold_mb" -> k <> "log_level" ->
       Dict.get (Dict.set (Dict.set d "large_file_threshold_mb" (JInt n))
                          "log_level" (JStr lv)) k = Dict.get d k) /\
    Dict.keys (Dict.set (Dict.set d "large_file_threshold_mb" (JInt n))
                        "log_level" (JStr lv)) =
      Dict.keys d ++
      match Dict.get d "large_file_threshold_mb" with
      | Some _ => []
      | None => ["large_file_threshold_mb"]
      end /\
    (Dict.get d "large_file_threshold_mb" = None ->
     Dict.get (Dict.set (Dict.set d "large_file_threshold_mb" (JInt n))
                        "log_level" (JStr lv)) "large_file_threshold_mb" =
     Some (JInt 10))).
  { intros lv. split; [|split].
    - intros k H1 H2. now rewrite !get_set_ne by congruence.
    - rewrite !dict_keys_set.
      rewrite get_set_ne by discriminate. rewrite Hll.
      destruct (Dict.get d "large_file_threshold_mb");
        [now rewrite app_nil_r|reflexivity].
    - intros Hnone. rewrite get_set_ne by discriminate. rewrite get_set_eq.
      unfold threshold_value in Hn. rewrite Hnone in Hn. cbn [int] in Hn.
      now injection Hn as <-. }
  destruct (valid_level (upper env (strip env level))); intros [= <- <-];
    eexists; (split; [reflexivity|apply Hgoal]).
Qed.

End ConfigLoaderProperties.

Lemma load_config_returns_well_formed_witness :
  config_loader.well_formed
    (config_loader.JObject
       [ ("log_level", config_loader.JStr "WARNING");
         ("target_folder", config_loader.JStr "input");
         ("note", config_loader.JList [config_loader.JInt 1]);
         ("large_file_threshold_mb", config_loader.JInt 10) ]).
Proof.
  apply (load_config_returns_well_formed
           (config_loader.sample_env true (Some config_loader.sample_config))
           "config/config.json" _ [] []).
  reflexivity.
Defined.

Lemma validate_idempotent_witness :
  config_loader.validate
    (config_loader.sample_env true None)
    (config_loader.JObject
       [ ("log_level", config_loader.JStr "WARNING");
         ("target_folder", config_loader.JStr "input");
         ("note", config_loader.JList [config_loader.JInt 1]);
         ("large_file_threshold_mb", config_loader.JInt 10) ]) [] =
  (config_loader.Returns
     (config_loader.JObject
        [ ("log_level", config_loader.JStr "WARNING");
          ("target_folder", config_loader.JStr "input");
          ("note", config_loader.JList [config_loader.JInt 1]);
          ("large_file_threshold_mb", config_loader.JInt 10) ]), []).
Proof.
  destruct (validate_idempotent (config_loader.sample_env true None))
    as (_ & H & _).
  apply (H config_loader.sample_config _ [] []). reflexivity.
Defined.

Lemma load_config_creates_default_witness :
  config_loader.load_config (config_loader.sample_env false None)
                            "config/config.json" [] =
  (config_loader.Returns config_loader._DEFAULT_CONFIG,
   [config_loader.WriteText "<json>";
    config_loader.LogInfoCreated "config/config.json"]).
Proof.
  destruct (load_config_creates_default (config_loader.sample_env false None)
              "config/config.json" [] eq_refl eq_refl) as [H _].
  apply H. reflexivity.
Defined.

Lemma load_config_errors_witness :
  (exists msg,
     config_loader.load_config (config_loader.sample_env true None)
                               "config/config.json" [] =
     (config_loader.Raises (config_loader.ValueError msg), [])) /\
  (exists msg,
     config_loader.load_config
       (config_loader.sample_env true (Some (config_loader.JList [])))
       "config/config.json" [] =
     (config_loader.Raises (config_loader.AttributeError msg), [])) /\
  (exists msg,
     config_loader.load_config
       (config_loader.sample_env true
          (Some (config_loader.JObject
                   [("target_folder", config_loader.JStr "data");
                    ("large_file_threshold_mb",
                     config_loader.JFloat (config_loader.FInf false))])))
       "config/config.json" [] =
     (config_loader.Raises (config_loader.OverflowError msg), [])).
Proof.
  split; [|split].
  - destruct (load_config_errors (config_loader.sample_env true None)
                "config/config.json" "<text of the file>" []
                eq_refl eq_refl eq_refl) as (H & _).
    apply H. reflexivity.
  - destruct (load_config_errors
                (config_loader.sample_env true (Some (config_loader.JList [])))
                "config/config.json" "<text of the file>" []
                eq_refl eq_refl eq_refl) as (_ & H & _).
    apply (H (config_loader.JList [])); [reflexivity|discriminate].
  - destruct (load_config_errors
                (config_loader.sample_env true
                   (Some (config_loader.JObject
                            [("target_folder", config_loader.JStr "data");
                             ("large_file_threshold_mb",
                              config_loader.JFloat (config_loader.FInf false))])))
                "config/config.json" "<text of the file>" []
                eq_refl eq_refl eq_refl) as (_ & _ & _ & H).
    destruct (H _ "data" eq_refl eq_refl) as (_ & Hinf & _).
    apply Hinf. exists false. reflexivity.
Defined.

Lemma validate_keeps_other_keys_witness :
  exists d',
    config_loader.JObject
      [ ("log_level", config_loader.JStr "WARNING");
        ("target_folder", config_loader.JStr "input");
        ("note", config_loader.JList [config_loader.JInt 1]);
        ("large_file_threshold_mb", config_loader.JInt 10) ] =
    config_loader.JObject d' /\
    Dict.get d' "note" = Some (config_loader.JList [config_loader.JInt 1]) /\
    Dict.keys d' =
      ["log_level"; "target_folder"; "note"; "large_file_threshold_mb"].
Proof.
  destruct (validate_keeps_other_keys
              (config_loader.sample_env true None)
              [ ("log_level", config_loader.JStr "  warning ");
                ("target_folder", config_loader.JStr "input");
                ("note", config_loader.JList [config_loader.JInt 1]) ]
              _ [] [] eq_refl) as (d' & Heq & Hget & Hkeys & _).
  exists d'. split; [exact Heq|]. split.
  - rewrite Hget; [reflexivity|discriminate|discriminate].
  - exact Hkeys.
Defined.

Section LogLevel.

Import config_loader.

Lemma lstrip_spaces (a s : string) :
  all_space a = true -> lstrip (a +++ s) = lstrip s.
Proof.
  induction a as [|c a IH]; cbn [String.append all_space lstrip]; [reflexivity|].
  intros H. apply andb_true_iff in H as [Hc Ha]. rewrite Hc. now apply IH.
Qed.

Lemma lstrip_no_space (s b : string) :
  no_space s = true -> s <> EmptyString -> lstrip (s +++ b) = s +++ b.
Proof.
  destruct s as [|c s]; [congruence|].
  cbn [no_space String.append lstrip]. intros H _.
  apply andb_true_iff in H as [Hc _].
  now destruct (is_space c).
Qed.

Lemma rstrip_spaces (a : string) : all_space a = true -> rstrip a = EmptyString.
Proof.
  induction a as [|c a IH]; cbn [all_space rstrip]; [reflexivity|].
  intros H. apply andb_true_iff in H as [Hc Ha]. now rewrite IH, Hc.
Qed.

Lemma rstrip_no_space (s b : string) :
  no_space s = true -> all_space b = true -> rstrip (s +++ b) = s.
Proof.
  intros Hs Hb. induction s as [|c s IH]; cbn [String.append].
  - now apply rstrip_spaces.
  - cbn [no_space] in Hs. apply andb_true_iff in Hs as [Hc Hs].
    cbn [rstrip]. rewrite (IH Hs).
    destruct s; [|reflexivity].
    now destruct (is_space c).
Qed.

Lemma strip_padded (a s b : string) :
  all_space a = true -> all_space b = true ->
  no_space s = true -> s <> EmptyString ->
  ascii_strip (a +++ s +++ b) = s.
Proof.
  intros Ha Hb Hs Hne. unfold ascii_strip.
  rewrite lstrip_spaces by assumption.
  rewrite lstrip_no_space by assumption.
  now apply rstrip_no_space.
Qed.

Lemma is_space_upper_char (c : ascii) : is_space (upper_char c) = is_space c.
Proof. destruct c as [[] [] [] [] [] [] [] []]; reflexivity. Qed.

Lemma no_space_upper (s : string) : no_space (ascii_upper s) = no_space s.
Proof.
  induction s as [|c s IH]; cbn [ascii_upper no_space]; [reflexivity|].
  now rewrite is_space_upper_char, IH.
Qed.

Lemma is_ascii_append (a b : string) :
  is_ascii (a +++ b) = andb (is_ascii a) (is_ascii b).
Proof.
  induction a as [|c a IH]; cbn [String.append is_ascii]; [reflexivity|].
  now rewrite IH, andb_assoc.
Qed.

Lemma is_space_is_ascii (c : ascii) :
  is_space c = true -> Nat.ltb (nat_of_ascii c) 128 = true.
Proof.
  destruct c as [[] [] [] [] [] [] [] []]; intros H;
    solve [reflexivity | discriminate H].
Qed.

Lemma all_space_is_ascii (a : string) : all_space a = true -> is_ascii a = true.
Proof.
  induction a as [|c a IH]; cbn [all_space is_ascii]; [reflexivity|].
  intros H. apply andb_true_iff in H as [Hc Ha].
  now rewrite (is_space_is_ascii c Hc), IH.
Qed.

Lemma is_ascii_upper_char (c : ascii) :
  Nat.ltb (nat_of_ascii (upper_char c)) 128 = Nat.ltb (nat_of_ascii c) 128.
Proof. destruct c as [[] [] [] [] [] [] [] []]; reflexivity. Qed.

Lemma is_ascii_upper (s : string) : is_ascii (ascii_upper s) = is_ascii s.
Proof.
  induction s as [|c s IH]; cbn [ascii_upper is_ascii]; [reflexivity|].
  now rewrite is_ascii_upper_char, IH.
Qed.

Lemma valid_level_no_space (level : string) :
  In level _VALID_LOG_LEVELS ->
  no_space level = true /\ level <> EmptyString /\ is_ascii level = true.
Proof.
  simpl. intros [<-|[<-|[<-|[<-|[<-|[]]]]]];
    (split; [reflexivity|split; [discriminate|reflexivity]]).
Qed.

Variable env : Env.

(** X17. The log level is recognised whatever its ASCII case and the
    ASCII white space around it: when the word between the white space
    is, with its letters [a] to [z] in upper case, one of the five
    levels, the config is returned with that level in upper case and no
    warning.  In general the level is judged by what [strip()] and then
    [upper()] make of it: if that is one of the five levels, it becomes
    the level and nothing is logged; if not, the level becomes ["INFO"]
    and one warning is logged that names the rejected text. *)
Theorem log_level_is_normalised
        (d : Dict.t Json) (folder level : string) (n : Z) (evs : list Event) :
  Dict.get d "target_folder" = Some (JStr folder) ->
  int env (threshold_value d) = Returns n ->
  Dict.get d "log_level" = Some (JStr level) ->
  (forall a word b,
     level = a +++ word +++ b ->
     all_space a = true -> all_space b = true ->
     In (ascii_upper word) _VALID_LOG_LEVELS ->
     validate env (JObject d) evs =
     (Returns (JObject (Dict.set (Dict.set d "large_file_threshold_mb" (JInt n))
                                 "log_level" (JStr (ascii_upper word)))),
      evs)) /\
  (In (upper env (strip env level)) _VALID_LOG_LEVELS ->
   validate env (JObject d) evs =
   (Returns (JObject (Dict.set (Dict.set d "large_file_threshold_mb" (JInt n))
                               "log_level" (JStr (upper env (strip env level))))),
    evs)) /\
  (~ In (upper env (strip env level)) _VALID_LOG_LEVELS ->
   validate env (JObject d) evs =
   (Returns (JObject (Dict.set (Dict.set d "large_file_threshold_mb" (JInt n))
                               "log_level" (JStr "INFO"))),
    evs ++ [LogWarningLevel (upper env (strip env level))])).
Proof.
  intros Htf Hn Hll. rewrite validate_object, Htf, Hn. cbv zeta. rewrite Hll.
  assert (Hvalid : In (upper env (strip env level)) _VALID_LOG_LEVELS ->
     (if valid_level (upper env (strip env level))
      then (Returns (JObject (Dict.set (Dict.set d "large_file_threshold_mb" (JInt n))
                                      "log_level"
                                      (JStr (upper env (strip env level))))), evs)
      else (Returns (JObject (Dict.set (Dict.set d "large_file_threshold_mb" (JInt n))
                                      "log_level" (JStr "INFO"))),
            evs ++ [LogWarningLevel (upper env (strip env level))])) =
     (Returns (JObject (Dict.set (Dict.set d "large_file_threshold_mb" (JInt n))
                                 "log_level"
                                 (JStr (upper env (strip env level))))), evs)).
  { intros Hin. apply valid_level_In in Hin. now rewrite Hin. }
  split; [|split].
  - intros a word b -> Ha Hb Hin.
    destruct (valid_level_no_space _ Hin) as (Hns & Hne & Hasc).
    rewrite no_space_upper in Hns. rewrite is_ascii_upper in Hasc.
    assert (Hword : word <> EmptyString) by (intros ->; now apply Hne).
    assert (Hnorm : upper env (strip env (a +++ word +++ b)) = ascii_upper word).
    { unfold strip.
      rewrite !is_ascii_append, Hasc, (all_space_is_ascii a Ha),
        (all_space_is_ascii b Hb).
      cbn [andb]. rewrite strip_padded by assumption.
      unfold upper. now rewrite Hasc. }
    rewrite <- Hnorm. apply Hvalid. now rewrite Hnorm.
  - exact Hvalid.
  - intros Hnot.
    destruct (valid_level (upper env (strip env level))) eqn:Hv; [|reflexivity].
    apply valid_level_In in Hv. contradiction.
Qed.

End LogLevel.

Lemma log_level_is_normalised_witness :
  config_loader.validate (config_loader.sample_env true None)
                         config_loader.sample_config [] =
  (config_loader.Returns
     (config_loader.JObject
        [ ("log_level", config_loader.JStr "WARNING");
          ("target_folder", config_loader.JStr "input");
          ("note", config_loader.JList [config_loader.JInt 1]);
          ("large_file_threshold_mb", config_loader.JInt 10) ]), []) /\
  config_loader.validate
    (config_loader.sample_env true None)
    (config_loader.JObject
       [ ("target_folder", config_loader.JStr "input");
         ("log_level",
          config_loader.JStr
            (config_loader.nbsp +++ "debug" +++ config_loader.em_space)) ]) [] =
  (config_loader.Returns
     (config_loader.JObject
        [ ("target_folder", config_loader.JStr "input");
          ("log_level", config_loader.JStr "DEBUG");
          ("large_file_threshold_mb", config_loader.JInt 10) ]), []) /\
  config_loader.validate
    (config_loader.sample_env true None)
    (config_loader.JObject
       [ ("target_folder", config_loader.JStr "input");
         ("log_level", config_loader.JStr "verbose") ]) [] =
  (config_loader.Returns
     (config_loader.JObject
        [ ("target_folder", config_loader.JStr "input");
          ("log_level", config_loader.JStr "INFO");
          ("large_file_threshold_mb", config_loader.JInt 10) ]),
   [config_loader.LogWarningLevel "VERBOSE"]).
Proof.
  split; [|split].
  - destruct (log_level_is_normalised (config_loader.sample_env true None)
                [ ("log_level", config_loader.JStr "  warning ");
                  ("target_folder", config_loader.JStr "input");
                  ("note", config_loader.JList [config_loader.JInt 1]) ]
                "input" "  warning " 10 [] eq_refl eq_refl eq_refl) as [H _].
    apply (H "  " "warning" " "); try reflexivity.
    simpl. tauto.
  - destruct (log_level_is_normalised (config_loader.sample_env true None)
                [ ("target_folder", config_loader.JStr "input");
                  ("log_level",
                   config_loader.JStr
                     (config_loader.nbsp +++ "debug" +++ config_loader.em_space)) ]
                "input" (config_loader.nbsp +++ "debug" +++ config_loader.em_space)
                10 [] eq_refl eq_refl eq_refl) as (_ & H & _).
    apply H. vm_compute. tauto.
  - destruct (log_level_is_normalised (config_loader.sample_env true None)
                [ ("target_folder", config_loader.JStr "input");
                  ("log_level", config_loader.JStr "verbose") ]
                "input" "verbose" 10 [] eq_refl eq_refl eq_refl) as (_ & _ & H).
    apply H. vm_compute. intros [H0|[H0|[H0|[H0|[H0|[]]]]]]; discriminate H0.
Defined.

(** * Properties of the path manager *)

Section PathManager.

Import path_manager.

Variable fs : FileSystem.

(** X18. [ensure_exists] returns only [True], and only for the types
    ["dir"] and ["file"].  When it returns for ["file"], the path was a
    file and nothing was changed; when it returns for ["dir"], the path
    was a directory and nothing was changed, or it was not, creation was
    asked for, and [mkdir] succeeded.  So, if a successful [mkdir]
    leaves a directory at the path, the path is a directory whenever
    [ensure_exists] returns for ["dir"]. *)
Theorem ensure_exists_returns
        (path expected_type : string) (create_if_missing : bool)
        (st st' : state fs) (b : bool) :
  ensure_exists fs path expected_type create_if_missing st = (Returns b, st') ->
  b = true /\
  ((expected_type = "file" /\ is_file fs st path = true /\ st' = st) \/
   (expected_type = "dir" /\
    ((is_dir fs st path = true /\ st' = st) \/
     (is_dir fs st path = false /\ create_if_missing = true /\
      mkdir fs st path = (Returns tt, st'))))) /\
  ((forall s p s', mkdir fs s p = (Returns tt, s') -> is_dir fs s' p = true) ->
   expected_type = "dir" -> is_dir fs st' path = true).
Proof.
  unfold ensure_exists.
  destruct (String.eqb expected_type "dir") eqn:Ed.
  - apply String.eqb_eq in Ed. subst expected_type.
    destruct (is_dir fs st path) eqn:Hd; cbn [negb].
    + intros [= <- <-]. split; [reflexivity|]. split; [|auto].
      right. split; [reflexivity|]. now left.
    + destruct create_if_missing; [|discriminate].
      destruct (mkdir fs st path) as [[[]|e] st1] eqn:Hm; [|discriminate].
      intros [= <- <-]. split; [reflexivity|]. split.
      * right. split; [reflexivity|]. right. auto.
      * intros Hcontract _. eapply Hcontract. exact Hm.
  - destruct (String.eqb expected_type "file") eqn:Ef; [|discriminate].
    apply String.eqb_eq in Ef. subst expected_type.
    destruct (is_file fs st path) eqn:Hf; cbn [negb]; [|discriminate].
    intros [= <- <-]. split; [reflexivity|]. split; [|discriminate].
    left. auto.
Qed.

(** X19. What [ensure_exists] never does.  It changes the file system
    only for the type ["dir"], with [create_if_missing], on a path that
    is not a directory.  For ["file"] the flag [create_if_missing] has
    no effect: a missing file is never created, the call raises
    [FileNotFoundError].  For ["dir"] without the flag a missing
    directory raises [NotADirectoryError]; an exception of [mkdir] goes
    to the caller.  Any other type raises [ValueError], whatever is at
    the path. *)
Theorem ensure_exists_never
        (path expected_type : string) (create_if_missing : bool) (st : state fs) :
  (create_if_missing = false \/ expected_type <> "dir" \/
   is_dir fs st path = true ->
   snd (ensure_exists fs path expected_type create_if_missing st) = st) /\
  ensure_exists fs path "file" create_if_missing st =
    (if is_file fs st path then Returns true
     else Raises (FileNotFoundError path), st) /\
  (is_dir fs st path = false ->
   ensure_exists fs path "dir" false st = (Raises (NotADirectoryError path), st)) /\
  (forall e st',
     is_dir fs st path = false ->
     mkdir fs st path = (Raises e, st') ->
     ensure_exists fs path "dir" true st = (Raises e, st')) /\
  (expected_type <> "dir" -> expected_type <> "file" ->
   exists msg,
     ensure_exists fs path expected_type create_if_missing st =
     (Raises (ValueError msg), st)).
Proof.
  split; [|split; [|split; [|split]]].
  - unfold ensure_exists. intros H.
    destruct (String.eqb expected_type "dir") eqn:Ed.
    + apply String.eqb_eq in Ed.
      destruct (is_dir fs st path) eqn:Hd; cbn [negb]; [reflexivity|].
      destruct create_if_missing; [|reflexivity].
      destruct H as [H|[H|H]]; congruence.
    + destruct (String.eqb expected_type "file"); [|reflexivity].
      now destruct (is_file fs st path).
  - unfold ensure_exists. cbn [String.eqb].
    change (String.eqb "file" "dir") with false.
    change (String.eqb "file" "file") with true.
    now destruct (is_file fs st path).
  - intros Hd. unfold ensure_exists.
    change (String.eqb "dir" "dir") with true. now rewrite Hd.
  - intros e st' Hd Hm. unfold ensure_exists.
    change (String.eqb "dir" "dir") with true. now rewrite Hd, Hm.
  - intros Hd Hf. unfold ensure_exists.
    apply String.eqb_neq in Hd, Hf. rewrite Hd, Hf. eexists. reflexivity.
Qed.

End PathManager.

Lemma ensure_exists_returns_witness :
  path_manager.is_dir path_manager.sample_fs ["/project/data"] "/project/data" =
  true.
Proof.
  destruct (ensure_exists_returns path_manager.sample_fs "/project/data" "dir"
              true [] ["/project/data"] true eq_refl) as (_ & _ & H).
  apply H; [|reflexivity].
  intros s p s' [= <-]. simpl. now rewrite String.eqb_refl.
Defined.

Lemma ensure_exists_never_witness :
  snd (path_manager.ensure_exists path_manager.sample_fs "/project/data" "file"
         true []) = [] /\
  path_manager.ensure_exists path_manager.sample_fs "/project/data" "dir"
    false [] =
    (path_manager.Raises (path_manager.NotADirectoryError "/project/data"), []) /\
  exists msg,
    path_manager.ensure_exists path_manager.sample_fs "/project/data" "folder"
      true [] =
    (path_manager.Raises (path_manager.ValueError msg), []).
Proof.
  split; [|split].
  - destruct (ensure_exists_never path_manager.sample_fs "/project/data" "file"
                true []) as (H & _).
    apply H. right. left. discriminate.
  - destruct (ensure_exists_never path_manager.sample_fs "/project/data" "dir"
                false []) as (_ & _ & H & _).
    apply H. reflexivity.
  - destruct (ensure_exists_never path_manager.sample_fs "/project/data" "folder"
                true []) as (_ & _ & _ & _ & H).
    apply H; discriminate.
Defined.

(** * Thresholds and the order of the indices *)

Lemma scan_from_new (os : OS) (root : string) (mb : Z) (lg : list LogRecord) :
  let w := mkWorld (init root mb) lg in
  scan os w = (Ok (map yield_of (scan_outcomes os w)),
               fold_left apply_outcome (scan_outcomes os w) w).
Proof. intros w. apply scan_run_ok, counters_ok_init. Qed.

(** X20. No threshold is too small to be used: with a threshold of 0
    megabytes or less, and sizes that are not negative, the scan of a
    new scanner puts on the large-file list every yielded record that is
    not empty, in the order they were found, and no empty one. *)
Theorem nonpositive_threshold_flags_every_file
        (os : OS) (root : string) (mb : Z) (lg : list LogRecord) :
  mb <= 0 ->
  (forall p n, getsize os p = Ok n -> 0 <= n) ->
  exists ys w',
    scan os (mkWorld (init root mb) lg) = (Ok ys, w') /\
    large_files (self w') =
      map path (filter (fun r => negb (size r =? 0)) (processed_records ys)).
Proof.
  intros Hmb Hsize. set (w := mkWorld (init root mb) lg).
  eexists. eexists. split; [apply scan_from_new|].
  rewrite traversal_large_files. cbn [self w init large_files
                                       large_file_threshold_bytes app].
  f_equal. apply filter_ext_in. intros r Hr.
  destruct (processed_records_origin _ _ _ Hr) as (_ & Ho & _).
  destruct (outcome_processed_inv _ _ _ Ho) as (_ & t & dt & Hs & _).
  apply Hsize in Hs. unfold is_large.
  destruct (size r =? 0) eqn:E0; [reflexivity|]. cbn [negb andb].
  apply Z.eqb_neq in E0. apply gtb_lt. lia.
Qed.

Lemma nonpositive_threshold_flags_every_file_witness :
  exists ys w',
    scan Sample.os (mkWorld (init "/data" 0) []) = (Ok ys, w') /\
    large_files (self w') =
      map path (filter (fun r => negb (size r =? 0)) (processed_records ys)).
Proof.
  apply (nonpositive_threshold_flags_every_file Sample.os "/data" 0 []).
  - lia.
  - intros p n. unfold Sample.os, getsize.
    destruct (Dict.get Sample.sizes p) as [m|] eqn:E; [|discriminate].
    intros [= <-]. apply get_In in E.
    unfold Sample.sizes in E. simpl in E.
    repeat (destruct E as [E|E]; [injection E as _ <-; lia|]).
    contradiction.
Defined.

Lemma existsb_keys {V : Type} (d : Dict.t V) (k : string) :
  existsb (String.eqb k) (Dict.keys d) =
  match Dict.get d k with Some _ => true | None => false end.
Proof.
  unfold Dict.keys. induction d as [|[k' v] d IH]; simpl; [reflexivity|].
  rewrite (String.eqb_sym k k').
  destruct (String.eqb k' k); [reflexivity|exact IH].
Qed.

Lemma keys_set_first_seen {V : Type} (d : Dict.t V) (k : string) (v : V) :
  Dict.keys (Dict.set d k v) =
  if existsb (String.eqb k) (Dict.keys d) then Dict.keys d
  else Dict.keys d ++ [k].
Proof.
  rewrite dict_keys_set, existsb_keys. now destruct (Dict.get d k).
Qed.

Lemma traversal_duplicates_keys (outs : list Outcome) : forall w,
  Dict.keys (duplicates (self (fold_left apply_outcome outs w))) =
  first_seen_from (Dict.keys (duplicates (self w)))
    (map (fun r => posixpath.basename (path r))
         (processed_records (map yield_of outs))).
Proof.
  unfold first_seen_from.
  induction outs as [|o outs IH]; intros w; simpl fold_left; [reflexivity|].
  rewrite IH, apply_outcome_duplicates.
  destruct o as [r|p e]; cbn [map yield_of processed_records fold_left];
    [|reflexivity].
  now rewrite keys_set_first_seen.
Qed.

Lemma traversal_extension_keys (outs : list Outcome) : forall w,
  Dict.keys (extension_count (self (fold_left apply_outcome outs w))) =
  first_seen_from (Dict.keys (extension_count (self w)))
    (map extension (processed_records (map yield_of outs))).
Proof.
  unfold first_seen_from.
  induction outs as [|o outs IH]; intros w; simpl fold_left; [reflexivity|].
  rewrite IH, apply_outcome_extension_count.
  destruct o as [r|p e]; cbn [map yield_of processed_records fold_left];
    [|reflexivity].
  now rewrite keys_set_first_seen.
Qed.

Lemma report_summary_messages (s : FileScanner) :
  map message (log (snd (report_summary (mkWorld s [])))) =
  [MsgDiscovered (total_discovered s);
   MsgProcessed (total_processed s);
   MsgFailedCount (total_failed s)] ++
  map (fun x => MsgExtension (fst x) (snd x)) (Dict.items (extension_count s)) ++
  [MsgLargeCount (Z.of_nat (List.length (large_files s)))].
Proof.
  rewrite report_summary_run. cbn [snd log self app map message].
  rewrite map_app, map_map. reflexivity.
Qed.

(** X21. The indices keep the order of discovery: after the scan of a
    new scanner the keys of the duplicate index are the base names of
    the yielded records, and the keys of the extension index their
    extensions, each once, in the order in which it was first seen.
    [report_summary] logs its lines for the extensions in that order. *)
Theorem indices_in_first_seen_order
        (os : OS) (root : string) (mb : Z) (lg : list LogRecord) :
  exists ys w',
    scan os (mkWorld (init root mb) lg) = (Ok ys, w') /\
    Dict.keys (duplicates (self w')) =
      first_seen (map (fun r => posixpath.basename (path r))
                      (processed_records ys)) /\
    Dict.keys (extension_count (self w')) =
      first_seen (map extension (processed_records ys)) /\
    map message (log (snd (report_summary (mkWorld (self w') [])))) =
      [MsgDiscovered (total_discovered (self w'));
       MsgProcessed (total_processed (self w'));
       MsgFailedCount (total_failed (self w'))] ++
      map (fun ext => MsgExtension ext (count_ext ext (processed_records ys)))
          (first_seen (map extension (processed_records ys))) ++
      [MsgLargeCount (Z.of_nat (List.length (large_files (self w'))))].
Proof.
  set (w := mkWorld (init root mb) lg).
  exists (map yield_of (scan_outcomes os w)),
         (fold_left apply_outcome (scan_outcomes os w) w).
  split; [apply scan_from_new|].
  assert (Hk : Dict.keys (extension_count
                            (self (fold_left apply_outcome (scan_outcomes os w) w))) =
               first_seen (map extension
                             (processed_records (map yield_of (scan_outcomes os w)))))
    by apply traversal_extension_keys.
  assert (Hget : forall ext n,
            In (ext, n) (extension_count
                           (self (fold_left apply_outcome (scan_outcomes os w) w))) ->
            n = count_ext ext
                  (processed_records (map yield_of (scan_outcomes os w)))).
  { intros ext n Hin.
    assert (Hnd : NoDup (Dict.keys (extension_count
               (self (fold_left apply_outcome (scan_outcomes os w) w)))))
      by (apply traversal_keys_NoDup; constructor).
    apply (In_get _ _ _ Hnd) in Hin.
    rewrite traversal_extension_key in Hin.
    destruct (_ =? 0); [discriminate|].
    injection Hin as <-. unfold count_of. simpl. lia. }
  split; [apply traversal_duplicates_keys|]. split; [exact Hk|].
  rewrite report_summary_messages, <- Hk.
  remember (fold_left apply_outcome (scan_outcomes os w) w) as w' eqn:Hw'.
  remember (processed_records (map yield_of (scan_outcomes os w))) as rs eqn:Hrs.
  clear Hw' Hrs Hk. do 2 f_equal.
  unfold Dict.keys, Dict.items. rewrite map_map.
  apply map_ext_in. intros [ext n] Hin. cbn [fst snd]. f_equal.
  now apply Hget.
Qed.
